(** * bartpy: the feature store, the sigma sampler and the feature-selection
      wrappers

    A shallow embedding of [bartpy/data.py], [bartpy/samplers/sigma.py] and
    [bartpy/featureselection.py].

    - Python floats are idealised: the covariates and the response are exact
      rationals ([Q]), the quantities of the sigma sampler, which go through
      a real power, are real numbers ([R]).  Equality "up to floating-point
      rounding" is therefore exact equality here ([Qeq] on rationals).
      Where the sign of the sampled value is at stake, the sampler is also
      modelled on floats with [inf] and [nan] ([Float64]).
    - Python exceptions are values of [exn]; a call that may raise returns a
      [result].
    - [numpy.random] is modelled by what it draws: a tape of raw uniform
      integers for [np.random.choice], an oracle for [np.random.gamma]. *)

From Stdlib Require Import QArith Qminmax Reals Lra Lia.
From stdpp Require Import base option list strings gmap.

Local Open Scope string_scope.

(** ** Python exceptions and results *)

Module Py.

Inductive exn : Type :=
| NoSplittableVariableException
| ValueError
| IndexError
| KeyError
| AttributeError
| NotImplementedError (msg : string).

Inductive result (A : Type) : Type :=
| Ok (a : A)
| Raise (e : exn).
Arguments Ok {A} a.
Arguments Raise {A} e.

Definition bind {A B} (r : result A) (k : A -> result B) : result B :=
  match r with
  | Ok a => k a
  | Raise e => Raise e
  end.

(** [s[0]] on a Python string. *)
Definition str_getitem0 (s : string) : result string :=
  match s with
  | EmptyString => Raise IndexError
  | String c _ => Ok (String c EmptyString)
  end.

End Py.
Import Py.

Declare Scope py_scope.
Delimit Scope py_scope with py.
Notation "x <~ c ;; k" := (Py.bind c (fun x => k))
  (at level 100, c at next level, right associativity) : py_scope.
Local Open Scope py_scope.

(** ** The numpy and pandas operations the store uses *)

Module Np.

(** [np.min(y)] / [y.min()]: a reduction of an empty array raises
    [ValueError]. *)
Definition min (y : list Q) : result Q :=
  match y with
  | [] => Raise ValueError
  | v :: t => Ok (fold_left Qmin t v)
  end.

Definition max (y : list Q) : result Q :=
  match y with
  | [] => Raise ValueError
  | v :: t => Ok (fold_left Qmax t v)
  end.

(** [pd.Series.nunique]: the number of distinct values of a column. *)
Fixpoint unique (col : list Q) : list Q :=
  match col with
  | [] => []
  | v :: t => if existsb (Qeq_bool v) t then unique t else v :: unique t
  end.

Definition nunique (col : list Q) : nat := length (unique col).

(** [DataFrame.apply(np.max)] on one column: pandas reports NaN ([None])
    for a column without rows. *)
Definition column_max (col : list Q) : option Q :=
  match col with
  | [] => None
  | v :: t => Some (fold_left Qmax t v)
  end.

(** [candidate == max_value]; a comparison with NaN is [False]. *)
Definition eq_value (candidate : Q) (max_value : option Q) : bool :=
  match max_value with
  | Some m => Qeq_bool candidate m
  | None => false
  end.

End Np.

(** ** [numpy.random] as a tape of draws

    A computation that consumes randomness reads raw uniform integers from a
    tape.  It returns a value together with the unread rest of the tape, or
    raises, or is still running when the tape is used up ([Starved]). *)

Module Random.

Abbreviation tape := (list nat) (only parsing).

Inductive outcome (A : Type) : Type :=
| Returns (a : A) (rest : tape)
| Raises (e : exn)
| Starved.
Arguments Returns {A} a rest.
Arguments Raises {A} e.
Arguments Starved {A}.

Definition M (A : Type) : Type := tape -> outcome A.

Definition ret {A} (a : A) : M A := fun rng => Returns a rng.

Definition bind {A B} (c : M A) (k : A -> M B) : M B :=
  fun rng =>
    match c rng with
    | Returns a rest => k a rest
    | Raises e => Raises e
    | Starved => Starved
    end.

Definition lift {A} (r : result A) : M A :=
  fun rng =>
    match r with
    | Ok a => Returns a rng
    | Raise e => Raises e
    end.

(** The element a raw draw [r] selects: every index below [length a] is
    selected by some draw, and by equally many draws of any range that is
    a multiple of [length a]. *)
Definition pick {A} (a : list A) (default : A) (r : nat) : A :=
  nth (r mod length a) a default.

(** [np.random.choice(a)]: [ValueError] on an empty array, otherwise one
    draw selects the element. *)
Definition choice {A} (a : list A) : M A :=
  fun rng =>
    match a with
    | [] => Raises ValueError
    | x0 :: _ =>
        match rng with
        | [] => Starved
        | r :: rest => Returns (pick a x0 r) rest
        end
    end.

(** Whether a computation is still running when the tape is used up. *)
Definition starved {A} (o : outcome A) : bool :=
  match o with
  | Starved => true
  | _ => false
  end.

(** All tapes of [k] draws over the indices below [n]; under a uniform
    generator each of them is equally likely. *)
Fixpoint tapes (n k : nat) : list tape :=
  match k with
  | O => [[]]
  | S k' => flat_map (fun r => map (cons r) (tapes n k')) (seq 0 n)
  end.

End Random.
Import Random.

Declare Scope rand_scope.
Delimit Scope rand_scope with rand.
Notation "x <- c ;; k" := (Random.bind c (fun x => k))
  (at level 100, c at next level, right associativity) : rand_scope.

(** A [pd.DataFrame]: the number of rows and the named columns. *)
Record DataFrame : Type := {
  n_rows : nat;
  columns : gmap string (list Q)
}.

(** ** [bartpy.data.Data], the feature store *)

Module Data.

(** The attributes of a [Data] object.  [__init__] sets the normalisation
    bounds only when [normalize] is true and the two caches only when
    [cache] is true; an attribute that was never set is [None], and
    reading it raises [AttributeError]. *)
Record t : Type := {
  _X : DataFrame;
  _y : list Q;
  original_y_min : option Q;
  original_y_max : option Q;
  _n_unique_values : option (gmap string nat);
  _max_values : option (gmap string (option Q))
}.

Definition getattr {A} (a : option A) : result A :=
  match a with
  | Some v => Ok v
  | None => Raise AttributeError
  end.

Definition normalize_y (y : list Q) : result (list Q) :=
  y_min <~ Np.min y ;;
  y_max <~ Np.max y ;;
  Ok (map (fun v => - (1 # 2) + ((v - y_min) / (y_max - y_min)))%Q y).

Definition unnormalize_y (self : t) (y : list Q) : result (list Q) :=
  let distance_from_min := map (fun v => v - - (1 # 2))%Q y in
  y_max <~ getattr (original_y_max self) ;;
  y_min <~ getattr (original_y_min self) ;;
  let total_distance := (y_max - y_min)%Q in
  Ok (map (fun d => y_min + (d * total_distance))%Q distance_from_min).

Definition __init__ (X : DataFrame) (y : list Q) (normalize cache : bool)
  : result t :=
  bounds_y <~
    (if normalize
     then y_min <~ Np.min y ;;
          y_max <~ Np.max y ;;
          ny <~ normalize_y y ;;
          Ok (Some y_min, Some y_max, ny)
     else Ok (None, None, y)) ;;
  let '(lo, hi, y') := bounds_y in
  Ok {| _X := X;
        _y := y';
        original_y_min := lo;
        original_y_max := hi;
        _n_unique_values :=
          if cache then Some (Np.nunique <$> columns X) else None;
        _max_values :=
          if cache then Some (Np.column_max <$> columns X) else None |}.

Definition y (self : t) : list Q := _y self.
Definition X (self : t) : DataFrame := _X self.

Definition unnormalized_y (self : t) : result (list Q) :=
  unnormalize_y self (y self).

Definition normalizing_scale (self : t) : result Q :=
  y_max <~ getattr (original_y_max self) ;;
  y_min <~ getattr (original_y_min self) ;;
  Ok (y_max - y_min)%Q.

Definition n_obsv (self : t) : nat := n_rows (X self).

(** Subscripting a dict or a data frame by a missing key raises
    [KeyError]. *)
Definition getitem {A} (m : gmap string A) (key : string) : result A :=
  match m !! key with
  | Some v => Ok v
  | None => Raise KeyError
  end.

Definition splittable_variables (self : t) : result (gset string) :=
  n_unique_values <~ getattr (_n_unique_values self) ;;
  Ok (dom (filter (fun kv => 1 < snd kv) n_unique_values)).

Definition variables (self : t) : gset string := dom (columns (X self)).

(** [list(...)] of the set is [elements]; the trailing [[0][0]] takes the
    drawn name out of the one-element array and then subscripts the name
    itself. *)
Definition random_splittable_variable (self : t) : M string :=
  (vars <- lift (splittable_variables self) ;;
   let splittable_variables := elements vars in
   if (length splittable_variables =? 0)%nat
   then lift (Raise NoSplittableVariableException)
   else name <- choice splittable_variables ;;
        lift (str_getitem0 name))%rand.

(** The [while candidate == max_value] loop; each iteration reads one draw.
    The column is not empty when the loop starts, so the default of [pick]
    is never used. *)
Fixpoint redraw (col : list Q) (max_value : option Q) (candidate : Q)
  (rng : tape) {struct rng} : outcome Q :=
  if Np.eq_value candidate max_value
  then match rng with
       | [] => Starved
       | r :: rest => redraw col max_value (pick col candidate r) rest
       end
  else Returns candidate rng.

Definition random_splittable_value (self : t) (variable : string) : M Q :=
  (max_values <- lift (getattr (_max_values self)) ;;
   max_value <- lift (getitem max_values variable) ;;
   col <- lift (getitem (columns (X self)) variable) ;;
   candidate <- choice col ;;
   redraw col max_value candidate)%rand.

Definition unique_values (self : t) (variable : string) : result (list Q) :=
  col <~ getitem (columns (X self)) variable ;;
  Ok (Np.unique col).

Definition n_splittable_variables (self : t) : result nat :=
  vars <~ splittable_variables self ;;
  Ok (size vars).

Definition n_unique_values (self : t) (variable : string) : result nat :=
  n_unique_values <~ getattr (_n_unique_values self) ;;
  getitem n_unique_values variable.

End Data.


(** ** [bartpy.samplers.sigma.SigmaSampler] *)

Module Sigma.

(** Modelled from the spec: the parameter holder [bartpy.sigma.Sigma], which
    is not part of the sources.  It has two fixed prior hyperparameters and
    one mutable current value. *)
Record t : Type := {
  alpha : R;
  beta : R;
  current_value : R
}.

(** Modelled from the spec: [Sigma.set_value], which overwrites the current
    value and leaves the hyperparameters alone. *)
Definition set_value (self : t) (value : R) : t :=
  {| alpha := alpha self; beta := beta self; current_value := value |}.

End Sigma.

Module Model.

(** Modelled from the spec: the model state [bartpy.model.Model], which is
    not part of the sources.  The sampler reads its feature store and its
    residuals, one per observation. *)
Record t : Type := {
  data : Data.t;
  residuals : list R
}.

End Model.

Module SigmaSampler.

Local Open Scope R_scope.

(** [np.square] and [np.sum] on an array of floats. *)
Definition np_square (a : list R) : list R := map (fun x => x * x) a.
Definition np_sum (a : list R) : R := fold_right Rplus 0 a.

(** [np.power] on a positive finite base; [Float64.power] below covers the
    other bases. *)
Definition np_power (x p : R) : R := Rpower x p.

(** The posterior parameters in the words of the specification: the sum
    of the squared residuals, the shape [alpha + n/2] and the rate
    [beta + 0.5 * sum r_i^2]. *)
Fixpoint sum_of_squares (r : list R) : R :=
  match r with
  | [] => 0
  | r_i :: rest => r_i ^ 2 + sum_of_squares rest
  end.

Definition posterior_shape (alpha : R) (n : nat) : R := alpha + INR n / 2.

Definition posterior_rate (beta : R) (r : list R) : R :=
  beta + 0.5 * sum_of_squares r.

(** Sigma objects live in a store and are passed by reference. *)
Abbreviation ref := positive (only parsing).
Abbreviation store := (gmap positive Sigma.t) (only parsing).

Section WithGenerator.

(** [np.random.gamma shape scale] at the current state of the generator. *)
Variable np_random_gamma : R -> R -> R.

Definition sample (model : Model.t) (sigma : Sigma.t) : R :=
  let posterior_alpha :=
    Sigma.alpha sigma + (INR (Data.n_obsv (Model.data model)) / 2) in
  let posterior_beta :=
    Sigma.beta sigma + (0.5 * (np_sum (np_square (Model.residuals model)))) in
  let draw :=
    np_power (np_random_gamma posterior_alpha (1 / posterior_beta)) (- 0.5) in
  draw.

Definition step (model : Model.t) (sigma : ref) (h : store)
  : (string * bool) * store :=
  let h' :=
    alter (fun s => Sigma.set_value s (sample model s)) sigma h in
  (("Sigma", true), h').

End WithGenerator.

End SigmaSampler.

(** ** The sigma sampler on floats that may be infinite or not a number

    The real-number model above follows the sampler where every
    intermediate value is a positive finite number.  The model below keeps
    the values [inf] and [nan] that numpy produces outside that domain:
    division by zero or by a number too small for the quotient to be
    finite, an infinite scale, a power of zero or of infinity.  Otherwise
    rounding and overflow of finite values are still idealised. *)

Module Float64.

Local Open Scope R_scope.

Inductive t : Type :=
| Finite (x : R)
| PInf
| NInf
| NaN.

(** The least magnitude that rounds to [inf]: half an ulp above the largest
    finite double [2^1024 - 2^971]. *)
Definition overflow : R := 2 ^ 1024 - 2 ^ 970.

(** [1. / x] on a numpy float: a zero divisor gives [inf], and so does a
    divisor so small that the quotient overflows. *)
Definition inv (x : R) : t :=
  if Req_dec_T x 0 then PInf
  else if Rle_dec overflow (1 / x) then PInf
  else if Rle_dec (1 / x) (- overflow) then NInf
  else Finite (1 / x).

(** The sign test of [np.random.gamma] on its arguments. *)
Definition negative (x : t) : bool :=
  match x with
  | Finite x => if Rlt_dec x 0 then true else false
  | NInf => true
  | PInf | NaN => false
  end.

(** [scale * g] for a finite [g]: infinity times zero is [nan]. *)
Definition mul (scale : t) (g : R) : t :=
  match scale with
  | Finite theta => Finite (theta * g)
  | PInf => if Rlt_dec 0 g then PInf else if Rlt_dec g 0 then NInf else NaN
  | NInf => if Rlt_dec 0 g then NInf else if Rlt_dec g 0 then PInf else NaN
  | NaN => NaN
  end.

(** [np.power(x, p)] for a negative exponent [p] that is not an integer,
    as [-0.5] is: [inf] at zero, [nan] on a negative base, [0.0] at
    infinity. *)
Definition power (x : t) (p : R) : t :=
  match x with
  | Finite g =>
      if Rlt_dec 0 g then Finite (Rpower g p)
      else if Rlt_dec g 0 then NaN else PInf
  | PInf | NInf => Finite 0
  | NaN => NaN
  end.

(** [x > 0]; a comparison with [nan] is false. *)
Definition positive (x : t) : Prop :=
  match x with
  | Finite x => 0 < x
  | PInf => True
  | NInf | NaN => False
  end.

End Float64.

Module SigmaSamplerFloat.

Local Open Scope R_scope.

(** Modelled from the spec: the parameter holder [bartpy.sigma.Sigma], which
    is not part of the sources, with a current value that may be any
    float. *)
Record holder : Type := {
  alpha : R;
  beta : R;
  current_value : Float64.t
}.

(** Modelled from the spec: [Sigma.set_value], which overwrites the current
    value and leaves the hyperparameters alone. *)
Definition set_value (self : holder) (value : Float64.t) : holder :=
  {| alpha := alpha self; beta := beta self; current_value := value |}.

Section WithGenerator.

(** The standard gamma variate [Gamma(shape, 1)] that the generator draws
    at its current state. *)
Variable standard_gamma : R -> R.

(** [np.random.gamma(shape, scale)]: [ValueError] on a negative shape or
    scale, otherwise the standard variate times the scale. *)
Definition np_random_gamma (shape : R) (scale : Float64.t)
  : result Float64.t :=
  if Rlt_dec shape 0 then Raise ValueError
  else if Float64.negative scale then Raise ValueError
  else Ok (Float64.mul scale (standard_gamma shape)).

Definition sample (model : Model.t) (sigma : holder) : result Float64.t :=
  let posterior_alpha :=
    alpha sigma + (INR (Data.n_obsv (Model.data model)) / 2) in
  let posterior_beta :=
    beta sigma
    + (0.5 * (SigmaSampler.np_sum
                (SigmaSampler.np_square (Model.residuals model)))) in
  g <~ np_random_gamma posterior_alpha (Float64.inv posterior_beta) ;;
  let draw := Float64.power g (- 0.5) in
  Ok draw.

(** [step] on a store of holders; when [sample] raises, nothing is
    written. *)
Definition step (model : Model.t) (sigma : positive)
  (h : gmap positive holder)
  : result ((string * bool) * gmap positive holder) :=
  match h !! sigma with
  | Some s =>
      value <~ sample model s ;;
      Ok (("Sigma", true), <[sigma := set_value s value]> h)
  | None => Ok (("Sigma", true), h)
  end.

End WithGenerator.

End SigmaSamplerFloat.

(** ** [bartpy.featureselection.SelectNullDistributionThreshold] *)

Module SelectNullDistributionThreshold.

(** A Python value as the constructor sees it: a string, or any other
    object, kept by its printed form. *)
Inductive value : Type :=
| Str (s : string)
| Object (repr : string).

(** The instance dictionary of [self]. *)
Abbreviation instance := (gmap string value) (only parsing).

(** Reading [self.name]: neither the class nor its scikit-learn bases
    define a [method] attribute, so the instance dictionary decides. *)
Definition getattr (self : instance) (name : string) : result value :=
  match self !! name with
  | Some v => Ok v
  | None => Raise AttributeError
  end.

Definition setattr (self : instance) (name : string) (v : value) : instance :=
  <[name := v]> self.

(** [method == "..."]. *)
Definition eq_str (v : value) (s : string) : bool :=
  match v with
  | Str s' => String.eqb s' s
  | Object _ => false
  end.

Definition str (v : value) : string :=
  match v with
  | Str s => s
  | Object repr => repr
  end.

(** ["... found {}".format(v)]. *)
Definition format_found (v : value) : string :=
  "Currently only local and global methods are supported, found " ++ str v.

Definition local_thresholds : value := Object "<function local_thresholds>".
Definition global_thresholds : value := Object "<function global_thresholds>".

(** [__init__] on a fresh instance [self]; the arguments of the [raise]
    are evaluated before the exception is built. *)
Definition __init__ (self : instance)
  (model percentile method n_permutations : value) : result instance :=
  self <~
    (if eq_str method "local"
     then Ok (setattr self "method" local_thresholds)
     else if eq_str method "global"
     then Ok (setattr self "method" global_thresholds)
     else found <~ getattr self "method" ;;
          Raise (NotImplementedError (format_found found))) ;;
  let self := setattr self "model" model in
  let self := setattr self "percentile" percentile in
  let self := setattr self "n_permutations" n_permutations in
  Ok self.

(** A freshly allocated instance has no attributes of its own. *)
Definition new : instance := ∅.

End SelectNullDistributionThreshold.

(** ** Concrete stores used in the examples below *)

Module Examples.

Local Open Scope Q_scope.

(** Two rows, one column named [x1] with the values 1 and 2. *)
Definition df_x1 : DataFrame :=
  {| n_rows := 2; columns := {[ "x1" := [1; 2] ]} |}.

Definition store_x1 : Data.t :=
  {| Data._X := df_x1;
     Data._y := [0; 10];
     Data.original_y_min := None;
     Data.original_y_max := None;
     Data._n_unique_values := Some (Np.nunique <$> columns df_x1);
     Data._max_values := Some (Np.column_max <$> columns df_x1) |}.

(** No columns, the response 1, 2, 3, normalised at construction. *)
Definition store_123 : Data.t :=
  {| Data._X := {| n_rows := 3; columns := ∅ |};
     Data._y := map (fun v => - (1 # 2) + ((v - 1) / (3 - 1))) [1; 2; 3];
     Data.original_y_min := Some 1;
     Data.original_y_max := Some 3;
     Data._n_unique_values := None;
     Data._max_values := None |}.

(** Two rows, one column whose name is the empty string. *)
Definition df_noname : DataFrame :=
  {| n_rows := 2; columns := {[ "" := [1; 2] ]} |}.

Definition store_noname : Data.t :=
  {| Data._X := df_noname;
     Data._y := [0; 10];
     Data.original_y_min := None;
     Data.original_y_max := None;
     Data._n_unique_values := Some (Np.nunique <$> columns df_noname);
     Data._max_values := Some (Np.column_max <$> columns df_noname) |}.

(** A model over [store_x1] with residuals 1 and -1, a holder with
    [alpha = beta = 1] and current value 1, and a generator whose gamma
    draw is the mean [shape * scale] of the distribution. *)
Definition model_x1 : Model.t :=
  {| Model.data := store_x1; Model.residuals := [1; -1]%R |}.

Definition sigma_1 : Sigma.t :=
  {| Sigma.alpha := 1; Sigma.beta := 1; Sigma.current_value := 1 |}.

Definition gamma_mean (shape scale : R) : R := (shape * scale)%R.

End Examples.

(** ** [bartpy.featureselection.SelectSplitProportionThreshold] *)

Module SelectSplitProportionThreshold.

Section WithModel.

(** The wrapped [SklearnModel], which the constructor only stores. *)
Variable SklearnModel : Type.

(** The attributes of a selector.  [__init__] sets [model] and [percentile];
    [X], [y] and [feature_proportions] exist only once [fit] has assigned
    them.  [feature_proportions] is a dict from feature to split proportion,
    kept in insertion order, the order in which [.values()] iterates. *)
Record t : Type := {
  model : SklearnModel;
  percentile : Q;
  X : option DataFrame;
  y : option (list Q);
  feature_proportions : option (list (string * Q))
}.

Definition __init__ (model : SklearnModel) (percentile : Q) : t :=
  {| model := model;
     percentile := percentile;
     X := None;
     y := None;
     feature_proportions := None |}.

(** [proportion > self.percentile]. *)
Definition gt (proportion percentile : Q) : bool :=
  negb (Qle_bool proportion percentile).

Definition values (d : list (string * Q)) : list Q := map snd d.

Definition _get_support_mask (self : t) : result (list bool) :=
  feature_proportions <~ Data.getattr (feature_proportions self) ;;
  Ok (map (fun proportion => gt proportion (percentile self))
          (values feature_proportions)).

End WithModel.

End SelectSplitProportionThreshold.

(** ** Further concrete stores *)

Module Fixtures.

Local Open Scope Q_scope.

(** Five rows, a constant column [c] and a column [v] with three distinct
    values. *)
Definition df_cv : DataFrame :=
  {| n_rows := 5;
     columns := {[ "c" := [7; 7; 7; 7; 7]; "v" := [1; 2; 2; 3; 1] ]} |}.

Definition store_cv : Data.t :=
  {| Data._X := df_cv;
     Data._y := [0; 1; 2; 3; 4];
     Data.original_y_min := None;
     Data.original_y_max := None;
     Data._n_unique_values := Some (Np.nunique <$> columns df_cv);
     Data._max_values := Some (Np.column_max <$> columns df_cv) |}.

(** The same frame without caches. *)
Definition store_cv_nocache : Data.t :=
  {| Data._X := df_cv;
     Data._y := [0; 1; 2; 3; 4];
     Data.original_y_min := None;
     Data.original_y_max := None;
     Data._n_unique_values := None;
     Data._max_values := None |}.

(** Two columns with one-character names. *)
Definition df_ab : DataFrame :=
  {| n_rows := 2; columns := {[ "a" := [1; 2]; "b" := [3; 4] ]} |}.

Definition store_ab : Data.t :=
  {| Data._X := df_ab;
     Data._y := [0; 1];
     Data.original_y_min := None;
     Data.original_y_max := None;
     Data._n_unique_values := Some (Np.nunique <$> columns df_ab);
     Data._max_values := Some (Np.column_max <$> columns df_ab) |}.





End Fixtures.

(** * Properties *)

(** ** Normalising and unnormalising the response *)

Section Normalisation.

Local Open Scope Q_scope.

(** One entry of the response, normalised with the bounds [lo], [hi] and
    mapped back with the same bounds. *)
Lemma unnormalize_normalize_entry (lo hi v : Q) :
  lo < hi ->
  lo + ((- (1 # 2) + ((v - lo) / (hi - lo)) - - (1 # 2)) * (hi - lo)) == v.
Proof.
  intros Hlt. field. intros Heq.
  assert (hi == lo) as E by (rewrite <- (Qplus_0_l lo), <- Heq; ring).
  rewrite E in Hlt. exact (Qlt_irrefl _ Hlt).
Qed.

(** The same entry when the two pairs of bounds differ: the result is the
    entry rescaled from the range of [y] to the range of the store. *)
Lemma unnormalize_normalize_entry_rescaled (lo hi y_min y_max v : Q) :
  y_min < y_max ->
  lo + ((- (1 # 2) + ((v - y_min) / (y_max - y_min)) - - (1 # 2)) * (hi - lo))
  == lo + (v - y_min) / (y_max - y_min) * (hi - lo).
Proof.
  intros Hlt. field. intros Heq.
  assert (y_max == y_min) as E by (rewrite <- (Qplus_0_l y_min), <- Heq; ring).
  rewrite E in Hlt. exact (Qlt_irrefl _ Hlt).
Qed.

Lemma normalize_y_ok (y : list Q) (y_min y_max : Q) :
  Np.min y = Ok y_min -> Np.max y = Ok y_max ->
  Data.normalize_y y =
    Ok (map (fun v => - (1 # 2) + ((v - y_min) / (y_max - y_min))) y).
Proof. intros Hmin Hmax. unfold Data.normalize_y. rewrite Hmin, Hmax. reflexivity. Qed.

(** The fixture of the docstring: [normalize_y [1, 2, 3]] is
    [-0.5, 0, 0.5]. *)
Lemma normalize_y_fixture :
  exists ny, Data.normalize_y [1; 2; 3] = Ok ny
             /\ Forall2 Qeq ny [- (1 # 2); 0; 1 # 2].
Proof. eexists. split; [reflexivity|]. repeat constructor. Qed.

Lemma unnormalize_y_ok (d : Data.t) (lo hi : Q) (ny : list Q) :
  Data.original_y_min d = Some lo -> Data.original_y_max d = Some hi ->
  Data.unnormalize_y d ny =
    Ok (map (fun v => lo + ((v - - (1 # 2)) * (hi - lo))) ny).
Proof.
  intros Hlo Hhi. unfold Data.unnormalize_y. rewrite Hlo, Hhi. simpl.
  rewrite map_map. reflexivity.
Qed.

Lemma init_normalized (X : DataFrame) (y : list Q) (cache : bool) (lo hi : Q) :
  Np.min y = Ok lo -> Np.max y = Ok hi ->
  exists d, Data.__init__ X y true cache = Ok d
            /\ Data.original_y_min d = Some lo
            /\ Data.original_y_max d = Some hi
            /\ Data.normalize_y y = Ok (Data.y d).
Proof.
  intros Hlo Hhi. unfold Data.__init__.
  rewrite (normalize_y_ok y lo hi Hlo Hhi), Hlo, Hhi. simpl.
  eexists. repeat split.
Qed.

Lemma roundtrip_same_bounds (lo hi : Q) (y : list Q) :
  lo < hi ->
  Forall2 Qeq
    (map (fun v => lo + ((v - - (1 # 2)) * (hi - lo)))
         (map (fun v => - (1 # 2) + ((v - lo) / (hi - lo))) y))
    y.
Proof.
  intros Hlt. induction y as [|v y IH]; simpl; constructor; [|exact IH].
  apply unnormalize_normalize_entry, Hlt.
Qed.

End Normalisation.

Section RoundTrip.

Local Open Scope Q_scope.

(** C10.  A store constructed with [normalize=True] over a response [y]
    with [min y < max y] gives back, through [unnormalized_y], the response
    it was constructed from (exactly, in exact arithmetic). *)
Theorem unnormalized_y_recovers_response
  (X : DataFrame) (y : list Q) (cache : bool) (y_min y_max : Q) :
  Np.min y = Ok y_min -> Np.max y = Ok y_max -> y_min < y_max ->
  exists d u,
    Data.__init__ X y true cache = Ok d
    /\ Data.unnormalized_y d = Ok u
    /\ Forall2 Qeq u y.
Proof.
  intros Hmin Hmax Hlt.
  destruct (init_normalized X y cache y_min y_max Hmin Hmax)
    as (d & Hd & Hlo & Hhi & Hy).
  rewrite (normalize_y_ok y y_min y_max Hmin Hmax) in Hy.
  injection Hy as Hy.
  exists d. eexists. split; [exact Hd|]. split.
  - unfold Data.unnormalized_y. apply unnormalize_y_ok; eassumption.
  - rewrite <- Hy. apply roundtrip_same_bounds, Hlt.
Qed.

Lemma unnormalized_y_recovers_response_witness :
  exists d u,
    Data.__init__ {| n_rows := 3; columns := ∅ |} [1; 2; 3] true true = Ok d
    /\ Data.unnormalized_y d = Ok u
    /\ Forall2 Qeq u [1; 2; 3].
Proof.
  apply (unnormalized_y_recovers_response _ [1; 2; 3] true 1 3);
    reflexivity.
Defined.

(** In general the round trip rescales [y] from its own range to the range
    of the store. *)
Lemma unnormalize_normalize_rescales (d : Data.t) (y : list Q)
  (lo hi y_min y_max : Q) :
  Data.original_y_min d = Some lo -> Data.original_y_max d = Some hi ->
  Np.min y = Ok y_min -> Np.max y = Ok y_max -> y_min < y_max ->
  exists ny u,
    Data.normalize_y y = Ok ny
    /\ Data.unnormalize_y d ny = Ok u
    /\ Forall2 Qeq u
         (map (fun v => lo + (v - y_min) / (y_max - y_min) * (hi - lo)) y).
Proof.
  intros Hlo Hhi Hmin Hmax Hlt.
  eexists. eexists. split; [apply (normalize_y_ok y y_min y_max Hmin Hmax)|].
  split; [apply (unnormalize_y_ok d lo hi _ Hlo Hhi)|].
  clear Hmin Hmax. induction y as [|v y IH]; simpl; constructor; [|exact IH].
  apply unnormalize_normalize_entry_rescaled, Hlt.
Qed.

(** C1, as amended.  Against a store constructed with normalisation over a
    response [y0], [unnormalize_y (normalize_y y)] gives back [y] for every
    [y] with [min y < max y] whose minimum and maximum are those of [y0],
    the original bounds of the store. *)
Theorem unnormalize_normalize_roundtrip
  (X : DataFrame) (y0 y : list Q) (cache : bool) (d : Data.t)
  (lo hi y_min y_max : Q) :
  Data.__init__ X y0 true cache = Ok d ->
  Np.min y0 = Ok lo -> Np.max y0 = Ok hi ->
  Np.min y = Ok y_min -> Np.max y = Ok y_max -> y_min < y_max ->
  y_min == lo -> y_max == hi ->
  exists ny u,
    Data.normalize_y y = Ok ny
    /\ Data.unnormalize_y d ny = Ok u
    /\ Forall2 Qeq u y.
Proof.
  intros Hd Hlo0 Hhi0 Hmin Hmax Hlt Elo Ehi.
  destruct (init_normalized X y0 cache lo hi Hlo0 Hhi0)
    as (d' & Hd' & Hlo & Hhi & _).
  rewrite Hd in Hd'. injection Hd' as <-.
  eexists. eexists. split; [apply (normalize_y_ok y y_min y_max Hmin Hmax)|].
  split; [apply (unnormalize_y_ok d lo hi _ Hlo Hhi)|].
  clear Hmin Hmax. induction y as [|v y IH]; simpl; constructor; [|exact IH].
  rewrite <- Elo, <- Ehi. apply unnormalize_normalize_entry, Hlt.
Qed.

Lemma unnormalize_normalize_roundtrip_witness :
  exists ny u,
    Data.normalize_y [3; 1; 2] = Ok ny
    /\ Data.unnormalize_y Examples.store_123 ny = Ok u
    /\ Forall2 Qeq u [3; 1; 2].
Proof.
  apply (unnormalize_normalize_roundtrip
           {| n_rows := 3; columns := ∅ |} [1; 2; 3] [3; 1; 2] false
           Examples.store_123 1 3 1 3); reflexivity.
Defined.

(** C1, as stated, fails.  The store is constructed over the response
    [0, 10]; the vector [1, 2] lies within the original range and has
    [min < max], yet the round trip returns [0, 10]: [normalize_y] uses the
    bounds of its own argument, [unnormalize_y] those of the store. *)
Lemma unnormalize_normalize_within_range_counterexample :
  exists d ny u,
    Data.__init__ {| n_rows := 2; columns := ∅ |} [0; 10] true true = Ok d
    /\ Np.min [1; 2] = Ok 1 /\ Np.max [1; 2] = Ok 2 /\ 1 < 2
    /\ Data.original_y_min d = Some 0 /\ Data.original_y_max d = Some 10
    /\ Forall (fun v => 0 <= v <= 10) [1; 2]
    /\ Data.normalize_y [1; 2] = Ok ny
    /\ Data.unnormalize_y d ny = Ok u
    /\ Forall2 Qeq u [0; 10]
    /\ ~ Forall2 Qeq u [1; 2].
Proof.
  eexists. eexists. eexists.
  split; [reflexivity|].
  split; [reflexivity|]. split; [reflexivity|]. split; [reflexivity|].
  split; [reflexivity|]. split; [reflexivity|].
  split.
  { repeat constructor; simpl; discriminate. }
  split; [reflexivity|]. split; [reflexivity|]. split.
  - repeat constructor; reflexivity.
  - intros H. inversion H as [|? ? ? ? H1 _]; subst. vm_compute in H1. discriminate.
Qed.

End RoundTrip.

(** ** Columns: maxima and distinct values *)

Section Columns.

Local Open Scope Q_scope.

Lemma fold_left_Qmax_init (t : list Q) (v : Q) : v <= fold_left Qmax t v.
Proof.
  revert v. induction t as [|w t IH]; intros v; simpl.
  - apply Qle_refl.
  - eapply Qle_trans; [apply (Q.le_max_l v w)|apply IH].
Qed.

Lemma fold_left_Qmax_upper (t : list Q) (v x : Q) :
  x ∈ v :: t -> x <= fold_left Qmax t v.
Proof.
  revert v. induction t as [|w t IH]; intros v Hin; simpl.
  - apply list_elem_of_singleton in Hin. subst. apply Qle_refl.
  - apply elem_of_cons in Hin as [->|Hin].
    + eapply Qle_trans; [apply (Q.le_max_l v w)|apply fold_left_Qmax_init].
    + apply elem_of_cons in Hin as [->|Hin].
      * eapply Qle_trans; [apply (Q.le_max_r v w)|apply fold_left_Qmax_init].
      * apply IH. right. exact Hin.
Qed.

Lemma column_max_upper (col : list Q) (m x : Q) :
  Np.column_max col = Some m -> x ∈ col -> x <= m.
Proof.
  destruct col as [|v t]; simpl; [discriminate|].
  intros [= <-]. apply fold_left_Qmax_upper.
Qed.

Lemma column_max_is_Some (col : list Q) :
  col <> [] -> exists m, Np.column_max col = Some m.
Proof. destruct col; [congruence|]. simpl. eauto. Qed.

Lemma unique_subset (col : list Q) (x : Q) : x ∈ Np.unique col -> x ∈ col.
Proof.
  induction col as [|v t IH]; simpl; [trivial|].
  destruct (existsb (Qeq_bool v) t).
  - intros H. right. auto.
  - intros [->|H]%elem_of_cons; [left|right; auto].
Qed.

(** The head of [unique col] differs from every later entry. *)
Lemma unique_head_distinct (col : list Q) (a : Q) (l : list Q) :
  Np.unique col = a :: l -> forall b, b ∈ l -> ~ a == b.
Proof.
  induction col as [|v t IH]; simpl; [discriminate|].
  destruct (existsb (Qeq_bool v) t) eqn:E; [exact IH|].
  intros [= -> <-] b Hb Hab.
  apply unique_subset, list_elem_of_In in Hb.
  assert (existsb (Qeq_bool a) t = true) as E'.
  { apply existsb_exists. exists b. split; [exact Hb|].
    apply Qeq_bool_iff, Hab. }
  congruence.
Qed.

(** A column with more than one distinct value has an entry that differs
    from any given value, in particular from its maximum. *)
Lemma nunique_gt_1_other (col : list Q) (m : Q) :
  (1 < Np.nunique col)%nat -> exists x, x ∈ col /\ ~ x == m.
Proof.
  unfold Np.nunique. intros Hn.
  destruct (Np.unique col) as [|a [|b l]] eqn:E; simpl in Hn; try lia.
  pose proof (unique_head_distinct col a (b :: l) E b) as Hab.
  assert (a ∈ col) as Ha by (apply unique_subset; rewrite E; left).
  assert (b ∈ col) as Hb by (apply unique_subset; rewrite E; right; left).
  destruct (Qeq_dec a m) as [Ea|Na].
  - exists b. split; [exact Hb|]. intros Eb. apply Hab; [left|].
    rewrite Ea, Eb. reflexivity.
  - exists a. split; assumption.
Qed.

Lemma nunique_gt_1_nonempty (col : list Q) :
  (1 < Np.nunique col)%nat -> col <> [].
Proof. intros H ->. vm_compute in H. lia. Qed.

Lemma eq_value_false_lt (col : list Q) (m c : Q) :
  Np.column_max col = Some m -> c ∈ col ->
  Np.eq_value c (Some m) = false -> c < m.
Proof.
  intros Hm Hc Hne. simpl in Hne. apply Qeq_bool_neq in Hne.
  pose proof (column_max_upper col m c Hm Hc) as Hle.
  apply Qle_lteq in Hle as [Hlt|Heq]; [exact Hlt|contradiction].
Qed.

Lemma eq_value_true_eq (m c : Q) :
  Np.eq_value c (Some m) = true <-> c == m.
Proof. simpl. apply Qeq_bool_iff. Qed.

End Columns.

(** ** Drawing from a column *)

Section Draws.

Local Open Scope Q_scope.

Lemma pick_elem_of {A} (a : list A) (d : A) (r : nat) :
  a <> [] -> pick a d r ∈ a.
Proof.
  intros Hne. unfold pick. apply list_elem_of_In, nth_In.
  apply Nat.mod_upper_bound. destruct a; [congruence|]. simpl. lia.
Qed.

Lemma pick_default {A} (a : list A) (d d' : A) (r : nat) :
  a <> [] -> pick a d r = pick a d' r.
Proof.
  intros Hne. unfold pick. apply nth_indep.
  apply Nat.mod_upper_bound. destruct a; [congruence|]. simpl. lia.
Qed.

(** Every row is selected by some draw. *)
Lemma pick_surjective {A} (a : list A) (d x : A) :
  x ∈ a -> exists r, (r < length a)%nat /\ pick a d r = x.
Proof.
  intros Hin. apply list_elem_of_In in Hin.
  destruct (In_nth a x d Hin) as (i & Hi & Hnth).
  exists i. split; [exact Hi|]. unfold pick.
  rewrite Nat.mod_small by exact Hi. exact Hnth.
Qed.

(** One iteration of the loop is one call of [np.random.choice]. *)
Lemma redraw_unfold (col : list Q) (mx : option Q) (c : Q) (rng : tape) :
  col <> [] ->
  Data.redraw col mx c rng =
    if Np.eq_value c mx
    then (c' <- choice col ;; Data.redraw col mx c')%rand rng
    else Returns c rng.
Proof.
  intros Hne. unfold Random.bind, choice.
  destruct col as [|x0 t]; [congruence|].
  destruct rng as [|r rest]; simpl; destruct (Np.eq_value c mx); try reflexivity.
  rewrite (pick_default (x0 :: t) c x0 r Hne). reflexivity.
Qed.

(** What the loop can do on a tape: it returns an entry of the column that
    is not equal to the maximum, or it is still running and then the
    candidate and every draw read so far selected a maximal row. *)
Lemma redraw_cases (col : list Q) (mx : option Q) (c : Q) (rng : tape) :
  col <> [] -> c ∈ col ->
  match Data.redraw col mx c rng with
  | Returns c' _ => c' ∈ col /\ Np.eq_value c' mx = false
  | Raises _ => False
  | Starved =>
      Np.eq_value c mx = true
      /\ Forall (fun r => Np.eq_value (pick col 0 r) mx = true) rng
  end.
Proof.
  intros Hne. revert c. induction rng as [|r rest IH]; intros c Hc; simpl.
  - destruct (Np.eq_value c mx) eqn:E; [split; [reflexivity|constructor]|].
    split; assumption.
  - destruct (Np.eq_value c mx) eqn:E; [|split; assumption].
    specialize (IH (pick col c r) (pick_elem_of col c r Hne)).
    destruct (Data.redraw col mx (pick col c r) rest); try exact IH.
    destruct IH as [E' F]. split; [reflexivity|].
    constructor; [|exact F].
    rewrite (pick_default col 0 c r Hne). exact E'.
Qed.

(** The loop stops at the first candidate that is not the maximum. *)
Lemma redraw_stops (col : list Q) (mx : option Q) (c : Q) (rng : tape) :
  col <> [] ->
  Np.eq_value c mx = false
  \/ Exists (fun r => Np.eq_value (pick col 0 r) mx = false) rng ->
  exists c' rest, Data.redraw col mx c rng = Returns c' rest.
Proof.
  intros Hne. revert c. induction rng as [|r rest IH]; intros c [E|Hex]; simpl.
  - rewrite E. eauto.
  - inversion Hex.
  - rewrite E. eauto.
  - destruct (Np.eq_value c mx) eqn:E; [|eauto].
    apply IH. apply Exists_cons in Hex as [Hr|Hex]; [left|right; exact Hex].
    rewrite (pick_default col c 0 r Hne). exact Hr.
Qed.

(** A store built with [cache=True]. *)
Lemma init_cached (X : DataFrame) (y : list Q) (normalize : bool) (d : Data.t) :
  Data.__init__ X y normalize true = Ok d ->
  Data.X d = X
  /\ Data._n_unique_values d = Some (Np.nunique <$> columns X)
  /\ Data._max_values d = Some (Np.column_max <$> columns X).
Proof.
  unfold Data.__init__. intros H.
  destruct normalize.
  - destruct (Np.min y); [|discriminate]. simpl in H.
    destruct (Np.max y); [|discriminate]. simpl in H.
    destruct (Data.normalize_y y); [|discriminate]. simpl in H.
    injection H as <-. auto.
  - simpl in H. injection H as <-. auto.
Qed.

Lemma cached_cardinality (X : DataFrame) (y : list Q) (normalize : bool)
  (d : Data.t) (v : string) (n : nat) :
  Data.__init__ X y normalize true = Ok d ->
  Data.n_unique_values d v = Ok n ->
  exists col, columns X !! v = Some col /\ n = Np.nunique col.
Proof.
  intros Hd Hn. destruct (init_cached X y normalize d Hd) as (_ & Hc & _).
  unfold Data.n_unique_values in Hn. rewrite Hc in Hn. simpl in Hn.
  unfold Data.getitem in Hn. rewrite lookup_fmap in Hn.
  destruct (columns X !! v) as [col|]; simpl in Hn; [|discriminate].
  injection Hn as <-. eauto.
Qed.

(** [random_splittable_value] on a cached store and a non-empty column:
    the first draw gives the first candidate, the loop reads the rest. *)
Lemma random_splittable_value_unfold (X : DataFrame) (y : list Q)
  (normalize : bool) (d : Data.t) (v : string) (col : list Q) (rng : tape) :
  Data.__init__ X y normalize true = Ok d ->
  columns X !! v = Some col -> col <> [] ->
  Data.random_splittable_value d v rng =
    match rng with
    | [] => Starved
    | r :: rest =>
        Data.redraw col (Np.column_max col) (pick col 0 r) rest
    end.
Proof.
  intros Hd Hcol Hne. destruct (init_cached X y normalize d Hd) as (HX & _ & Hm).
  unfold Data.random_splittable_value, Random.bind, Random.lift.
  rewrite Hm. simpl. unfold Data.getitem.
  rewrite lookup_fmap, HX, Hcol. simpl.
  destruct col as [|x0 t]; [congruence|]. simpl.
  destruct rng as [|r rest]; [reflexivity|].
  rewrite (pick_default (x0 :: t) x0 0 r Hne). reflexivity.
Qed.

End Draws.

(** ** Choosing a splittable variable *)

Section SplittableVariable.

Lemma store_x1_init :
  Data.__init__ Examples.df_x1 [0; 10]%Q false true = Ok Examples.store_x1.
Proof. reflexivity. Qed.

Lemma store_noname_init :
  Data.__init__ Examples.df_noname [0; 10]%Q false true = Ok Examples.store_noname.
Proof. reflexivity. Qed.

(** What [random_splittable_variable] does on any store with caches: it
    raises [NoSplittableVariableException] on an empty set, and otherwise
    subscripts the drawn name, which yields its first character or, for
    the empty name, [IndexError]. *)
Lemma random_splittable_variable_cases (d : Data.t) (vars : gset string)
  (rng : tape) :
  Data.splittable_variables d = Ok vars ->
  match Data.random_splittable_variable d rng with
  | Returns c rest =>
      exists name r, name ∈ vars /\ rng = r :: rest
                     /\ str_getitem0 name = Ok c
  | Raises e =>
      (e = NoSplittableVariableException /\ vars = ∅)
      \/ (e = IndexError /\ "" ∈ vars)
  | Starved => rng = [] /\ vars <> ∅
  end.
Proof.
  intros Hv. unfold Data.random_splittable_variable, Random.bind, Random.lift.
  rewrite Hv.
  destruct (elements vars) as [|x0 l] eqn:E; simpl.
  - left. split; [reflexivity|]. apply elements_empty_inv in E.
    apply leibniz_equiv. exact E.
  - assert (x0 :: l <> []) as Hne by congruence.
    assert (vars <> ∅) as Hvars.
    { intros ->. rewrite elements_empty in E. discriminate. }
    destruct rng as [|r rest]; [split; trivial|].
    assert (pick (x0 :: l) x0 r ∈ vars) as Hin.
    { apply elem_of_elements. rewrite E. apply pick_elem_of, Hne. }
    destruct (pick (x0 :: l) x0 r) as [|c s] eqn:P; simpl.
    + right. split; [reflexivity|exact Hin].
    + exists (String c s), r. repeat split. exact Hin.
Qed.

(** The structural-exhaustion signal is raised exactly on an empty set of
    splittable variables, whatever the generator draws. *)
Lemma random_splittable_variable_exhausted_iff (d : Data.t)
  (vars : gset string) (rng : tape) :
  Data.splittable_variables d = Ok vars ->
  Data.random_splittable_variable d rng = Raises NoSplittableVariableException
  <-> vars = ∅.
Proof.
  intros Hv. pose proof (random_splittable_variable_cases d vars rng Hv) as H.
  split.
  - intros E. rewrite E in H. destruct H as [[_ H]|[H _]]; [exact H|discriminate].
  - intros ->. unfold Data.random_splittable_variable, Random.bind, Random.lift.
    rewrite Hv, elements_empty. reflexivity.
Qed.

(** C3.  On the store with the single splittable column [x1], every draw
    makes [random_splittable_variable] return ["x"], the first character
    of the name, which is not a member of [splittable_variables()]. *)
Theorem random_splittable_variable_returns_first_character :
  Data.__init__ Examples.df_x1 [0; 10]%Q false true = Ok Examples.store_x1
  /\ Data.splittable_variables Examples.store_x1 = Ok {[ "x1" ]}
  /\ (forall r rest,
        Data.random_splittable_variable Examples.store_x1 (r :: rest)
        = Returns "x" rest)
  /\ "x" ∉ ({[ "x1" ]} : gset string).
Proof.
  split; [reflexivity|]. split; [reflexivity|]. split.
  - intros r rest.
    unfold Data.random_splittable_variable, Random.bind, Random.lift.
    replace (Data.splittable_variables Examples.store_x1)
      with (Ok ({[ "x1" ]} : gset string)) by reflexivity.
    rewrite elements_singleton. simpl. unfold pick. simpl. reflexivity.
  - intros H. apply elem_of_singleton in H. discriminate.
Qed.

(** C4.  On the store whose single splittable column is named by the empty
    string, the set of splittable variables is not empty, yet every draw
    makes [random_splittable_variable] raise: the subscript on the drawn
    name fails with [IndexError]. *)
Theorem random_splittable_variable_raises_on_empty_name :
  Data.__init__ Examples.df_noname [0; 10]%Q false true = Ok Examples.store_noname
  /\ Data.splittable_variables Examples.store_noname = Ok {[ "" ]}
  /\ ({[ "" ]} : gset string) <> ∅
  /\ (forall r rest,
        Data.random_splittable_variable Examples.store_noname (r :: rest)
        = Raises IndexError).
Proof.
  split; [reflexivity|]. split; [reflexivity|]. split.
  - intros H. assert ("" ∈ (∅ : gset string)) as Hin by (rewrite <- H; set_solver).
    set_solver.
  - intros r rest.
    unfold Data.random_splittable_variable, Random.bind, Random.lift.
    replace (Data.splittable_variables Examples.store_noname)
      with (Ok ({[ "" ]} : gset string)) by reflexivity.
    rewrite elements_singleton. simpl. unfold pick. simpl.
    destruct (r mod 1)%nat as [|[|?]]; reflexivity.
Qed.

End SplittableVariable.

(** ** How often the loop is still running after [k] draws *)

Section Counting.

Local Open Scope Q_scope.

Lemma tapes_length (n k : nat) : length (tapes n k) = (n ^ k)%nat.
Proof.
  induction k as [|k IH]; [reflexivity|].
  cbn [tapes Nat.pow].
  assert (forall l, length (flat_map (fun r => map (cons r) (tapes n k)) l)
                    = (length l * n ^ k)%nat) as H.
  { induction l as [|a l IHl]; [reflexivity|].
    cbn [flat_map]. rewrite length_app, length_map, IHl, IH. simpl. lia. }
  rewrite H, length_seq. reflexivity.
Qed.

Lemma filter_forallb_cons (P : nat -> bool) (a : nat) (T : list (list nat)) :
  length (List.filter (forallb P) (map (cons a) T))
  = if P a then length (List.filter (forallb P) T) else 0%nat.
Proof.
  induction T as [|t T IHT]; [destruct (P a); reflexivity|].
  cbn [map List.filter forallb]. destruct (P a); simpl in *.
  - destruct (forallb P t); simpl; rewrite IHT; reflexivity.
  - exact IHT.
Qed.

(** Among the tapes of [k] draws, those on which every draw satisfies [P]
    number [c ^ k], where [c] counts the indices that satisfy [P]. *)
Lemma tapes_forallb_count (P : nat -> bool) (n k : nat) :
  length (List.filter (forallb P) (tapes n k))
  = (length (List.filter P (seq 0 n)) ^ k)%nat.
Proof.
  induction k as [|k IH]; [reflexivity|].
  cbn [tapes Nat.pow]. rewrite <- IH. clear IH.
  generalize (tapes n k) as T. intros T.
  induction (seq 0 n) as [|a l IHl]; [reflexivity|].
  cbn [flat_map List.filter]. rewrite List.filter_app, length_app, IHl.
  rewrite filter_forallb_cons. destruct (P a); simpl; lia.
Qed.

(** The loop is still running exactly when the candidate and every draw
    selected a maximal row. *)
Lemma redraw_starved (col : list Q) (m c : Q) (rng : tape) :
  col <> [] ->
  starved (Data.redraw col (Some m) c rng)
  = Qeq_bool c m && forallb (fun r => Qeq_bool (pick col 0 r) m) rng.
Proof.
  intros Hne. revert c. induction rng as [|r rest IH]; intros c; simpl.
  - destruct (Qeq_bool c m); reflexivity.
  - destruct (Qeq_bool c m); [|reflexivity]. simpl.
    rewrite IH, (pick_default col c 0 r Hne). reflexivity.
Qed.

Lemma random_splittable_value_starved (X : DataFrame) (y : list Q)
  (normalize : bool) (d : Data.t) (v : string) (col : list Q) (m : Q)
  (rng : tape) :
  Data.__init__ X y normalize true = Ok d ->
  columns X !! v = Some col -> col <> [] -> Np.column_max col = Some m ->
  starved (Data.random_splittable_value d v rng)
  = forallb (fun r => Qeq_bool (pick col 0 r) m) rng.
Proof.
  intros Hd Hcol Hne Hmax.
  rewrite (random_splittable_value_unfold X y normalize d v col rng Hd Hcol Hne).
  destruct rng as [|r rest]; [reflexivity|].
  rewrite Hmax. apply redraw_starved, Hne.
Qed.

(** Fewer indices select a maximal row than there are rows, as soon as one
    row is not maximal. *)
Lemma maximal_rows_lt (col : list Q) (m x : Q) :
  x ∈ col -> ~ x == m ->
  (length (List.filter (fun r => Qeq_bool (pick col 0%Q r) m)
             (seq 0 (length col)))
   < length col)%nat.
Proof.
  intros Hx Hxm.
  destruct (pick_surjective col 0 x Hx) as (i & Hi & Hpick).
  set (P := fun r => Qeq_bool (pick col 0 r) m).
  assert (P i = false) as HPi.
  { unfold P. rewrite Hpick. destruct (Qeq_bool x m) eqn:E; [|reflexivity].
    apply Qeq_bool_iff in E. contradiction. }
  assert (forall l, i ∈ l -> (length (List.filter P l) < length l)%nat) as H.
  { induction l as [|a l IHl]; intros Hin; [inversion Hin|].
    pose proof (List.filter_length_le P l) as Hle. simpl.
    apply elem_of_cons in Hin as [<-|Hin].
    - rewrite HPi. lia.
    - specialize (IHl Hin). destruct (P a); simpl; lia. }
  pose proof (H (seq 0 (length col))) as Hseq. rewrite length_seq in Hseq.
  apply Hseq, list_elem_of_In, in_seq. lia.
Qed.

End Counting.

(** With fewer favourable indices than indices, the proportion of tapes of
    [k] draws that use favourable indices only tends to 0 as [k] grows. *)
Lemma starving_fraction_vanishes (c n : nat) (eps : R) :
  (c < n)%nat -> (0 < eps)%R ->
  exists K, forall k, (K <= k)%nat ->
    (INR (c ^ k) < eps * INR (n ^ k))%R.
Proof.
  intros Hcn Heps.
  assert (0 < INR n)%R as Hn by (apply lt_0_INR; lia).
  assert (0 <= INR c)%R as Hc by apply pos_INR.
  assert (INR c < INR n)%R as Hlt by (apply lt_INR, Hcn).
  set (x := (INR c / INR n)%R).
  assert (0 <= x < 1)%R as [Hx0 Hx1].
  { unfold x. split.
    - apply Rmult_le_pos; [exact Hc|]. left. apply Rinv_0_lt_compat, Hn.
    - apply (Rmult_lt_reg_r (INR n)); [exact Hn|].
      unfold Rdiv. rewrite Rmult_assoc, Rinv_l by lra. lra. }
  destruct (pow_lt_1_zero x) with (y := eps) as [K HK].
  { rewrite Rabs_pos_eq; assumption. }
  { exact Heps. }
  exists K. intros k Hk. specialize (HK k Hk).
  rewrite Rabs_pos_eq in HK by (apply pow_le, Hx0).
  rewrite !pow_INR.
  assert (0 < INR n ^ k)%R as Hnk by (apply pow_lt, Hn).
  replace (INR c ^ k)%R with (x ^ k * INR n ^ k)%R.
  - apply Rmult_lt_compat_r; assumption.
  - unfold x, Rdiv. rewrite Rpow_mult_distr, pow_inv, Rmult_assoc, Rinv_l by lra.
    ring.
Qed.

(** ** Choosing a splittable value *)

Section SplittableValue.

Local Open Scope Q_scope.

(** The cached maximum of a column with more than one distinct value. *)
Lemma cached_maximum (X : DataFrame) (y : list Q) (normalize : bool)
  (d : Data.t) (v : string) (n : nat) :
  Data.__init__ X y normalize true = Ok d ->
  Data.n_unique_values d v = Ok n -> (1 < n)%nat ->
  exists col m,
    columns (Data.X d) !! v = Some col
    /\ col <> []
    /\ (1 < Np.nunique col)%nat
    /\ Np.column_max col = Some m
    /\ (max_values <~ Data.getattr (Data._max_values d) ;;
        Data.getitem max_values v) = Ok (Some m).
Proof.
  intros Hd Hn Hgt.
  destruct (cached_cardinality X y normalize d v n Hd Hn) as (col & Hcol & ->).
  destruct (init_cached X y normalize d Hd) as (HX & _ & Hm).
  pose proof (nunique_gt_1_nonempty col Hgt) as Hne.
  destruct (column_max_is_Some col Hne) as (m & Hmax).
  exists col, m. rewrite HX, Hm. simpl. unfold Data.getitem.
  rewrite lookup_fmap, Hcol. simpl. rewrite Hmax. auto.
Qed.

(** C5.  For a variable [v] with cached cardinality above 1, a value that
    [random_splittable_value v] returns is an observed value of the column
    and strictly below the cached maximum; the call never raises; while it
    has not returned, every draw so far selected a maximal row; and some
    draw makes it return. *)
Theorem random_splittable_value_below_max (X : DataFrame) (y : list Q)
  (normalize : bool) (d : Data.t) (v : string) (n : nat) :
  Data.__init__ X y normalize true = Ok d ->
  Data.n_unique_values d v = Ok n -> (1 < n)%nat ->
  exists col m,
    columns (Data.X d) !! v = Some col
    /\ (max_values <~ Data.getattr (Data._max_values d) ;;
        Data.getitem max_values v) = Ok (Some m)
    /\ (forall rng,
          match Data.random_splittable_value d v rng with
          | Returns c _ => c ∈ col /\ c < m
          | Raises _ => False
          | Starved => Forall (fun r => pick col 0 r == m) rng
          end)
    /\ (exists r c, forall rest,
          Data.random_splittable_value d v (r :: rest) = Returns c rest).
Proof.
  intros Hd Hn Hgt.
  destruct (cached_maximum X y normalize d v n Hd Hn Hgt)
    as (col & m & Hcol & Hne & Hcard & Hmax & Hcache).
  exists col, m. split; [exact Hcol|]. split; [exact Hcache|].
  destruct (init_cached X y normalize d Hd) as (HX & _).
  rewrite HX in Hcol. split.
  - intros rng.
    rewrite (random_splittable_value_unfold X y normalize d v col rng Hd Hcol Hne).
    destruct rng as [|r rest]; [constructor|].
    pose proof (redraw_cases col (Np.column_max col) (pick col 0 r) rest Hne
                  (pick_elem_of col 0 r Hne)) as H.
    rewrite Hmax in *.
    destruct (Data.redraw col (Some m) (pick col 0 r) rest); try exact H.
    + destruct H as [Hin Hneq]. split; [exact Hin|].
      eapply eq_value_false_lt; eassumption.
    + destruct H as [E F]. constructor.
      * apply eq_value_true_eq, E.
      * eapply Forall_impl; [exact F|]. intros r' Hr'.
        apply eq_value_true_eq, Hr'.
  - destruct (nunique_gt_1_other col m Hcard) as (x & Hx & Hxm).
    destruct (pick_surjective col 0 x Hx) as (r & _ & Hr).
    exists r, x. intros rest.
    rewrite (random_splittable_value_unfold X y normalize d v col _ Hd Hcol Hne).
    rewrite Hmax, Hr.
    assert (Qeq_bool x m = false) as E.
    { destruct (Qeq_bool x m) eqn:E; [|reflexivity].
      apply Qeq_bool_iff in E. contradiction. }
    destruct rest; simpl; rewrite E; reflexivity.
Qed.

Lemma random_splittable_value_below_max_witness :
  exists col m,
    columns (Data.X Examples.store_x1) !! "x1" = Some col
    /\ (max_values <~ Data.getattr (Data._max_values Examples.store_x1) ;;
        Data.getitem max_values "x1") = Ok (Some m)
    /\ (forall rng,
          match Data.random_splittable_value Examples.store_x1 "x1" rng with
          | Returns c _ => c ∈ col /\ c < m
          | Raises _ => False
          | Starved => Forall (fun r => pick col 0 r == m) rng
          end)
    /\ (exists r c, forall rest,
          Data.random_splittable_value Examples.store_x1 "x1" (r :: rest)
          = Returns c rest).
Proof.
  apply (random_splittable_value_below_max
           Examples.df_x1 [0; 10] false Examples.store_x1 "x1" 2).
  - reflexivity.
  - reflexivity.
  - lia.
Defined.

(** C6.  For a variable [v] with cached cardinality above 1, some observed
    value is strictly below the cached maximum, and the loop of
    [random_splittable_value v] stops at the first draw that selects such a
    value: it returns on every tape, and on every infinite sequence of
    draws, that contains one.  Only draws that select maximal rows keep it
    running, and the proportion of the equally likely tapes of [k] draws on
    which it is still running tends to 0 as [k] grows. *)
Theorem random_splittable_value_terminates (X : DataFrame) (y : list Q)
  (normalize : bool) (d : Data.t) (v : string) (n : nat) :
  Data.__init__ X y normalize true = Ok d ->
  Data.n_unique_values d v = Ok n -> (1 < n)%nat ->
  exists col m,
    columns (Data.X d) !! v = Some col
    /\ (max_values <~ Data.getattr (Data._max_values d) ;;
        Data.getitem max_values v) = Ok (Some m)
    /\ (exists x, x ∈ col /\ x < m)
    /\ (forall rng,
          Exists (fun r => pick col 0 r < m) rng ->
          exists c rest, Data.random_splittable_value d v rng = Returns c rest)
    /\ (forall draws : nat -> nat,
          (exists i, pick col 0 (draws i) < m) ->
          exists k c rest,
            Data.random_splittable_value d v (map draws (seq 0 k))
            = Returns c rest)
    /\ (forall eps : R, (0 < eps)%R ->
        exists K, forall k, (K <= k)%nat ->
          (INR (length (List.filter
                          (fun rng => starved (Data.random_splittable_value d v rng))
                          (tapes (length col) k)))
           < eps * INR (length (tapes (length col) k)))%R).
Proof.
  intros Hd Hn Hgt.
  destruct (cached_maximum X y normalize d v n Hd Hn Hgt)
    as (col & m & Hcol & Hne & Hcard & Hmax & Hcache).
  exists col, m. split; [exact Hcol|]. split; [exact Hcache|].
  destruct (init_cached X y normalize d Hd) as (HX & _).
  rewrite HX in Hcol.
  assert (forall c, c < m -> Np.eq_value c (Some m) = false) as Hlt.
  { intros c Hc. simpl. destruct (Qeq_bool c m) eqn:E; [|reflexivity].
    apply Qeq_bool_iff in E. rewrite E in Hc.
    exfalso. exact (Qlt_irrefl _ Hc). }
  assert (forall rng,
            Exists (fun r => pick col 0 r < m) rng ->
            exists c rest,
              Data.random_splittable_value d v rng = Returns c rest) as Hstop.
  { intros rng Hex.
    rewrite (random_splittable_value_unfold X y normalize d v col rng Hd Hcol Hne).
    destruct rng as [|r rest]; [inversion Hex|].
    rewrite Hmax. apply redraw_stops; [exact Hne|].
    apply Exists_cons in Hex as [Hr|Hex]; [left; apply Hlt, Hr|right].
    eapply Exists_impl; [exact Hex|]. intros r' Hr'. apply Hlt, Hr'. }
  destruct (nunique_gt_1_other col m Hcard) as (x & Hx & Hxm).
  split; [|split; [exact Hstop|split]].
  - exists x. split; [exact Hx|].
    pose proof (column_max_upper col m x Hmax Hx) as Hle.
    apply Qle_lteq in Hle as [H|H]; [exact H|contradiction].
  - intros draws [i Hi]. exists (S i). apply Hstop.
    apply Exists_exists. exists (draws i). split; [|exact Hi].
    apply list_elem_of_In, in_map, in_seq. lia.
  - intros eps Heps.
    destruct (starving_fraction_vanishes _ _ eps (maximal_rows_lt col m x Hx Hxm) Heps)
      as [K HK].
    exists K. intros k Hk. specialize (HK k Hk).
    rewrite tapes_length.
    rewrite (List.filter_ext _ (forallb (fun r => Qeq_bool (pick col 0 r) m))).
    + rewrite tapes_forallb_count. exact HK.
    + intros rng.
      apply (random_splittable_value_starved X y normalize d v col m rng);
        assumption.
Qed.

Lemma random_splittable_value_terminates_witness :
  exists col m,
    columns (Data.X Examples.store_x1) !! "x1" = Some col
    /\ (max_values <~ Data.getattr (Data._max_values Examples.store_x1) ;;
        Data.getitem max_values "x1") = Ok (Some m)
    /\ (exists x, x ∈ col /\ x < m)
    /\ (forall rng,
          Exists (fun r => pick col 0 r < m) rng ->
          exists c rest,
            Data.random_splittable_value Examples.store_x1 "x1" rng
            = Returns c rest)
    /\ (forall draws : nat -> nat,
          (exists i, pick col 0 (draws i) < m) ->
          exists k c rest,
            Data.random_splittable_value Examples.store_x1 "x1"
              (map draws (seq 0 k))
            = Returns c rest)
    /\ (forall eps : R, (0 < eps)%R ->
        exists K, forall k, (K <= k)%nat ->
          (INR (length (List.filter
                          (fun rng =>
                             starved (Data.random_splittable_value
                                        Examples.store_x1 "x1" rng))
                          (tapes (length col) k)))
           < eps * INR (length (tapes (length col) k)))%R).
Proof.
  apply (random_splittable_value_terminates
           Examples.df_x1 [0; 10] false Examples.store_x1 "x1" 2).
  - reflexivity.
  - reflexivity.
  - lia.
Defined.

End SplittableValue.

(** ** The sigma sampler *)

Section SigmaSamplerProperties.

Local Open Scope R_scope.

Variable np_random_gamma : R -> R -> R.

Lemma np_sum_square (r : list R) :
  SigmaSampler.np_sum (SigmaSampler.np_square r) = SigmaSampler.sum_of_squares r.
Proof.
  unfold SigmaSampler.np_sum, SigmaSampler.np_square.
  induction r as [|x r IH]; [reflexivity|].
  cbn [map fold_right SigmaSampler.sum_of_squares]. rewrite IH. ring.
Qed.

Lemma sum_of_squares_nonneg (r : list R) : 0 <= SigmaSampler.sum_of_squares r.
Proof.
  induction r as [|x r IH]; simpl; [lra|].
  pose proof (pow2_ge_0 x). lra.
Qed.

(** On a positive base the power [-0.5] is the inverse square root. *)
Lemma np_power_inverse_sqrt (g : R) :
  0 < g -> SigmaSampler.np_power g (- 0.5) = / sqrt g.
Proof.
  intros Hg. unfold SigmaSampler.np_power.
  replace (- 0.5) with (- / 2) by lra.
  rewrite Rpower_Ropp. f_equal. apply Rpower_sqrt, Hg.
Qed.

(** C2.  [sample] passes to the gamma draw exactly the shape
    [alpha + n/2] and the scale [1/rate] with rate
    [beta + 0.5 * sum r_i^2], and returns the draw raised to the power
    [-0.5]. *)
Theorem sample_draws_from_posterior (model : Model.t) (sigma : Sigma.t) :
  SigmaSampler.sample np_random_gamma model sigma =
    Rpower
      (np_random_gamma
         (SigmaSampler.posterior_shape
            (Sigma.alpha sigma) (Data.n_obsv (Model.data model)))
         (1 / SigmaSampler.posterior_rate
                (Sigma.beta sigma) (Model.residuals model)))
      (- 0.5).
Proof.
  unfold SigmaSampler.sample, SigmaSampler.posterior_shape,
    SigmaSampler.posterior_rate, SigmaSampler.np_power.
  rewrite np_sum_square. reflexivity.
Qed.


End SigmaSamplerProperties.

Section SigmaSamplerExamples.

Local Open Scope R_scope.

Lemma gamma_mean_positive (shape scale : R) :
  0 < shape -> 0 < scale -> 0 < Examples.gamma_mean shape scale.
Proof. intros H1 H2. unfold Examples.gamma_mean. apply Rmult_lt_0_compat; assumption. Qed.


End SigmaSamplerExamples.

(** ** The sign of the sampled value, on floats *)

Section SigmaSamplerSign.

Import SigmaSamplerFloat.

Local Open Scope R_scope.

Variable standard_gamma : R -> R.

(** The generator draws non-negative standard gamma variates. *)
Hypothesis standard_gamma_nonneg :
  forall shape, 0 <= shape -> 0 <= standard_gamma shape.

Lemma overflow_large : 2 <= Float64.overflow.
Proof.
  unfold Float64.overflow.
  replace (2 ^ 1024) with (2 ^ 970 * 2 ^ 54) by (rewrite <- pow_add; reflexivity).
  assert (2 <= 2 ^ 970) as H970.
  { change 970%nat with (1 + 969)%nat. rewrite pow_add.
    assert (1 <= 2 ^ 969) by (apply pow_R1_Rle; lra). simpl. lra. }
  assert (2 <= 2 ^ 54) as H54.
  { change 54%nat with (1 + 53)%nat. rewrite pow_add.
    assert (1 <= 2 ^ 53) by (apply pow_R1_Rle; lra). simpl. lra. }
  nra.
Qed.

Lemma overflow_positive : 0 < Float64.overflow.
Proof. pose proof overflow_large. lra. Qed.

Lemma inv_positive (x : R) :
  0 < x -> 1 / x < Float64.overflow ->
  Float64.inv x = Float64.Finite (1 / x).
Proof.
  intros Hx Hov. unfold Float64.inv.
  destruct (Req_dec_T x 0); [lra|].
  destruct (Rle_dec Float64.overflow (1 / x)); [lra|].
  destruct (Rle_dec (1 / x) (- Float64.overflow)) as [Hle|]; [|reflexivity].
  exfalso. pose proof overflow_positive.
  assert (0 < 1 / x) by (apply Rdiv_lt_0_compat; lra). lra.
Qed.

Lemma inv_zero : Float64.inv 0 = Float64.PInf.
Proof. unfold Float64.inv. destruct (Req_dec_T 0 0); [reflexivity|lra]. Qed.



(** With a non-negative shape and a positive rate whose inverse does not
    overflow, the draw is finite. *)
Lemma draw_finite (shape rate : R) :
  0 <= shape -> 0 < rate -> 1 / rate < Float64.overflow ->
  np_random_gamma standard_gamma shape (Float64.inv rate)
  = Ok (Float64.Finite (1 / rate * standard_gamma shape)).
Proof.
  intros Hs Hr Hov. rewrite (inv_positive rate Hr Hov). unfold np_random_gamma.
  destruct (Rlt_dec shape 0); [lra|]. simpl.
  destruct (Rlt_dec (1 / rate) 0) as [Hn|Hn]; [|reflexivity].
  exfalso. assert (0 < 1 / rate) by (apply Rdiv_lt_0_compat; lra). lra.
Qed.

(** With a non-negative shape and an infinite scale the value [sample]
    returns is [0.0] or [nan]; the scale is infinite for a zero rate and for
    a positive rate whose inverse overflows. *)
Lemma sample_at_infinite_scale (model : Model.t) (s : holder) :
  0 <= alpha s + INR (Data.n_obsv (Model.data model)) / 2 ->
  Float64.inv
    (beta s + 0.5 * SigmaSampler.np_sum
                      (SigmaSampler.np_square (Model.residuals model)))
  = Float64.PInf ->
  exists v, sample standard_gamma model s = Ok v /\ ~ Float64.positive v.
Proof.
  intros Hs Hr. unfold sample. rewrite Hr. unfold np_random_gamma.
  destruct (Rlt_dec _ 0) as [Hn|_]; [lra|]. simpl.
  destruct (Rlt_dec 0 (standard_gamma _)); simpl.
  - eexists. split; [reflexivity|]. simpl. lra.
  - destruct (Rlt_dec (standard_gamma _) 0); simpl;
      (eexists; split; [reflexivity|]); simpl; [lra|tauto].
Qed.

Lemma inv_overflows (x : R) :
  0 < x -> Float64.overflow <= 1 / x -> Float64.inv x = Float64.PInf.
Proof.
  intros Hx Hov. unfold Float64.inv.
  destruct (Req_dec_T x 0); [reflexivity|].
  destruct (Rle_dec Float64.overflow (1 / x)); [reflexivity|contradiction].
Qed.

(** With a non-negative shape and a zero rate the scale is infinite, and
    the value [sample] returns is [0.0] or [nan]. *)
Lemma sample_at_zero_rate (model : Model.t) (s : holder) :
  0 <= alpha s + INR (Data.n_obsv (Model.data model)) / 2 ->
  beta s + 0.5 * SigmaSampler.np_sum
                   (SigmaSampler.np_square (Model.residuals model)) = 0 ->
  exists v, sample standard_gamma model s = Ok v /\ ~ Float64.positive v.
Proof.
  intros Hs Hr. unfold sample. rewrite Hr, inv_zero. unfold np_random_gamma.
  destruct (Rlt_dec _ 0) as [Hn|_]; [lra|]. simpl.
  destruct (Rlt_dec 0 (standard_gamma _)); simpl.
  - eexists. split; [reflexivity|]. simpl. lra.
  - destruct (Rlt_dec (standard_gamma _) 0); simpl;
      (eexists; split; [reflexivity|]); simpl; [lra|tauto].
Qed.

(** Where the draw is positive and finite the two models of [sample]
    agree. *)
Lemma sample_agrees_on_positive_draw (model : Model.t) (s : holder) :
  let posterior_alpha :=
    alpha s + INR (Data.n_obsv (Model.data model)) / 2 in
  let posterior_beta :=
    beta s + 0.5 * SigmaSampler.np_sum
                     (SigmaSampler.np_square (Model.residuals model)) in
  0 <= posterior_alpha -> 0 < posterior_beta ->
  1 / posterior_beta < Float64.overflow ->
  0 < standard_gamma posterior_alpha ->
  sample standard_gamma model s
  = Ok (Float64.Finite
          (SigmaSampler.sample
             (fun shape scale => scale * standard_gamma shape) model
             {| Sigma.alpha := alpha s;
                Sigma.beta := beta s;
                Sigma.current_value := 0 |})).
Proof.
  intros posterior_alpha posterior_beta Ha Hb Hov Hg.
  unfold sample. fold posterior_alpha posterior_beta.
  rewrite (draw_finite posterior_alpha posterior_beta Ha Hb Hov). simpl.
  destruct (Rlt_dec 0 (1 / posterior_beta * standard_gamma posterior_alpha))
    as [_|Hn]; [reflexivity|].
  exfalso. apply Hn. apply Rmult_lt_0_compat; [|exact Hg].
  apply Rdiv_lt_0_compat; lra.
Qed.

End SigmaSamplerSign.

Section SigmaSamplerSignClaim.

Import SigmaSamplerFloat.

Local Open Scope R_scope.





End SigmaSamplerSignClaim.

(** ** Constructing the null-distribution selector *)

Section Selector.

Import SelectNullDistributionThreshold.

(** With a method other than ["local"] and ["global"], building the
    message reads [self.method], which was never assigned: the constructor
    raises [AttributeError] and never reaches the [raise] of
    [NotImplementedError]. *)
Lemma init_unsupported_method (model percentile method n_permutations : value) :
  eq_str method "local" = false -> eq_str method "global" = false ->
  __init__ new model percentile method n_permutations = Raise AttributeError.
Proof.
  intros Hl Hg. unfold __init__. rewrite Hl, Hg. reflexivity.
Qed.

(** The two supported methods construct the selector. *)
Lemma init_supported_method (model percentile n_permutations : value) :
  (exists self, __init__ new model percentile (Str "local") n_permutations = Ok self
                /\ self !! "method" = Some local_thresholds)
  /\ (exists self, __init__ new model percentile (Str "global") n_permutations = Ok self
                   /\ self !! "method" = Some global_thresholds).
Proof.
  split; eexists; (split; [reflexivity|]); unfold setattr;
    repeat (rewrite lookup_insert_ne by discriminate);
    apply lookup_insert_eq.
Qed.

(** C9.  Constructing the selector with the method ["foo"] raises
    [AttributeError], not [NotImplementedError]. *)
Theorem init_unknown_method_raises_AttributeError
  (model percentile n_permutations : value) :
  __init__ new model percentile (Str "foo") n_permutations = Raise AttributeError
  /\ forall msg,
       __init__ new model percentile (Str "foo") n_permutations
       <> Raise (NotImplementedError msg).
Proof.
  split; [reflexivity|]. intros msg. discriminate.
Qed.

End Selector.

(** * Further properties of the feature store *)

(** ** Which variables are splittable *)

Section Splittable.

Local Open Scope Q_scope.

Lemma splittable_variables_cached (X : DataFrame) (y : list Q)
  (normalize : bool) (d : Data.t) :
  Data.__init__ X y normalize true = Ok d ->
  Data.splittable_variables d
  = Ok (dom (filter (fun kv : string * nat => (1 < kv.2)%nat)
                    (Np.nunique <$> columns X))).
Proof.
  intros Hd. destruct (init_cached X y normalize d Hd) as (_ & Hc & _).
  unfold Data.splittable_variables. rewrite Hc. reflexivity.
Qed.

Lemma splittable_elem (X : DataFrame) (v : string) :
  v ∈ dom (filter (fun kv : string * nat => (1 < kv.2)%nat)
                  (Np.nunique <$> columns X))
  <-> exists col, columns X !! v = Some col /\ (1 < Np.nunique col)%nat.
Proof.
  rewrite elem_of_dom. unfold is_Some. split.
  - intros [n Hn]. apply map_lookup_filter_Some in Hn as [Hn Hgt].
    rewrite lookup_fmap in Hn.
    destruct (columns X !! v) as [col|]; simpl in Hn; [|discriminate].
    injection Hn as <-. exists col. split; [reflexivity|exact Hgt].
  - intros (col & Hcol & Hgt). exists (Np.nunique col).
    apply map_lookup_filter_Some. split; [|exact Hgt].
    rewrite lookup_fmap, Hcol. reflexivity.
Qed.

Lemma splittable_subset_variables (X : DataFrame) (y : list Q)
  (normalize : bool) (d : Data.t) :
  Data.__init__ X y normalize true = Ok d ->
  dom (filter (fun kv : string * nat => (1 < kv.2)%nat)
              (Np.nunique <$> columns X))
  ⊆ Data.variables d.
Proof.
  intros Hd. destruct (init_cached X y normalize d Hd) as (HX & _).
  intros v Hv. apply splittable_elem in Hv as (col & Hcol & _).
  unfold Data.variables. rewrite HX. apply elem_of_dom. eauto.
Qed.

(** X1.  On a store built with caches, [splittable_variables()] is exactly
    the set of columns with more than one distinct value, and it is a subset
    of [variables]. *)
Theorem splittable_variables_characterised (X : DataFrame) (y : list Q)
  (normalize : bool) (d : Data.t) :
  Data.__init__ X y normalize true = Ok d ->
  exists vars,
    Data.splittable_variables d = Ok vars
    /\ (forall v, v ∈ vars <->
                  exists col, columns X !! v = Some col
                              /\ (1 < Np.nunique col)%nat)
    /\ vars ⊆ Data.variables d.
Proof.
  intros Hd. eexists.
  split; [apply (splittable_variables_cached X y normalize d Hd)|].
  split; [apply splittable_elem|].
  apply (splittable_subset_variables X y normalize d Hd).
Qed.

Lemma splittable_variables_characterised_witness :
  exists vars,
    Data.splittable_variables Fixtures.store_cv = Ok vars
    /\ (forall v, v ∈ vars <->
                  exists col, columns Fixtures.df_cv !! v = Some col
                              /\ (1 < Np.nunique col)%nat)
    /\ vars ⊆ Data.variables Fixtures.store_cv.
Proof.
  apply (splittable_variables_characterised
           Fixtures.df_cv [0; 1; 2; 3; 4] false Fixtures.store_cv).
  reflexivity.
Defined.

(** The end-to-end fixture: five rows, a constant column and a column with
    three distinct values. *)
Lemma store_cv_splittable :
  Data.splittable_variables Fixtures.store_cv = Ok {[ "v" ]}
  /\ Data.n_splittable_variables Fixtures.store_cv = Ok 1%nat.
Proof. split; reflexivity. Qed.

(** X2.  On a store with caches, [n_splittable_variables] is at most the
    number of columns, and it is 0 exactly when
    [random_splittable_variable] raises [NoSplittableVariableException],
    whatever the generator draws. *)
Theorem n_splittable_variables_zero_iff (X : DataFrame) (y : list Q)
  (normalize : bool) (d : Data.t) :
  Data.__init__ X y normalize true = Ok d ->
  exists k,
    Data.n_splittable_variables d = Ok k
    /\ (k <= size (Data.variables d))%nat
    /\ (k = 0%nat <->
        forall rng,
          Data.random_splittable_variable d rng
          = Raises NoSplittableVariableException).
Proof.
  intros Hd.
  pose proof (splittable_variables_cached X y normalize d Hd) as Hvars.
  pose proof (splittable_subset_variables X y normalize d Hd) as Hsub.
  set (vars := dom _) in Hvars, Hsub.
  exists (size vars). unfold Data.n_splittable_variables. rewrite Hvars.
  split; [reflexivity|]. split; [apply subseteq_size, Hsub|].
  split.
  - intros Hz rng. apply size_empty_inv in Hz. apply leibniz_equiv in Hz.
    apply (random_splittable_variable_exhausted_iff d vars rng Hvars), Hz.
  - intros H. specialize (H []).
    apply (random_splittable_variable_exhausted_iff d vars [] Hvars) in H.
    rewrite H. apply size_empty.
Qed.

Lemma n_splittable_variables_zero_iff_witness :
  exists k,
    Data.n_splittable_variables Fixtures.store_cv = Ok k
    /\ (k <= size (Data.variables Fixtures.store_cv))%nat
    /\ (k = 0%nat <->
        forall rng,
          Data.random_splittable_variable Fixtures.store_cv rng
          = Raises NoSplittableVariableException).
Proof.
  apply (n_splittable_variables_zero_iff
           Fixtures.df_cv [0; 1; 2; 3; 4] false Fixtures.store_cv).
  reflexivity.
Defined.

End Splittable.

(** ** Attributes that [__init__] leaves unset *)

Section MissingAttributes.

Local Open Scope Q_scope.

(** X5.  [__init__] raises only for an empty response with
    [normalize=True], and then it raises [ValueError]; in every other case
    it constructs the store, which holds the frame it was given. *)
Theorem init_raises_iff (X : DataFrame) (y : list Q) (normalize cache : bool) :
  (normalize = true /\ y = []
   /\ Data.__init__ X y normalize cache = Raise ValueError)
  \/ (~ (normalize = true /\ y = [])
      /\ exists d, Data.__init__ X y normalize cache = Ok d /\ Data.X d = X).
Proof.
  unfold Data.__init__, Data.normalize_y.
  destruct normalize; simpl.
  - destruct y as [|v t]; simpl.
    + left. auto.
    + right. split; [intros [_ H]; discriminate|].
      eexists. split; reflexivity.
  - right. split; [intros [H _]; discriminate|].
    eexists. split; reflexivity.
Qed.

(** X3.  On a store built with [cache=False] every operation that reads a
    cache raises [AttributeError], before any draw is read; the operations
    that read the frame itself still work. *)
Theorem no_cache_raises_AttributeError (X : DataFrame) (y : list Q)
  (normalize : bool) (d : Data.t) :
  Data.__init__ X y normalize false = Ok d ->
  Data.splittable_variables d = Raise AttributeError
  /\ Data.n_splittable_variables d = Raise AttributeError
  /\ (forall v, Data.n_unique_values d v = Raise AttributeError)
  /\ (forall rng, Data.random_splittable_variable d rng = Raises AttributeError)
  /\ (forall v rng, Data.random_splittable_value d v rng = Raises AttributeError)
  /\ Data.variables d = dom (columns X)
  /\ (forall v col, columns X !! v = Some col ->
                    Data.unique_values d v = Ok (Np.unique col)).
Proof.
  intros Hd.
  assert (Data._n_unique_values d = None /\ Data._max_values d = None
          /\ Data.X d = X) as (Hn & Hm & HX).
  { unfold Data.__init__ in Hd. destruct normalize.
    - destruct (Np.min y); [|discriminate]. simpl in Hd.
      destruct (Np.max y); [|discriminate]. simpl in Hd.
      destruct (Data.normalize_y y); [|discriminate]. simpl in Hd.
      injection Hd as <-. auto.
    - simpl in Hd. injection Hd as <-. auto. }
  unfold Data.splittable_variables, Data.n_splittable_variables,
    Data.n_unique_values, Data.random_splittable_variable,
    Data.random_splittable_value, Data.unique_values, Data.variables,
    Random.bind, Random.lift, Data.splittable_variables.
  rewrite Hn, Hm, HX. simpl. repeat split; try reflexivity.
  intros v col Hcol. unfold Data.getitem. rewrite Hcol. reflexivity.
Qed.

Lemma no_cache_raises_AttributeError_witness :
  Data.splittable_variables Fixtures.store_cv_nocache = Raise AttributeError
  /\ Data.n_splittable_variables Fixtures.store_cv_nocache = Raise AttributeError
  /\ (forall v, Data.n_unique_values Fixtures.store_cv_nocache v
                = Raise AttributeError)
  /\ (forall rng, Data.random_splittable_variable Fixtures.store_cv_nocache rng
                  = Raises AttributeError)
  /\ (forall v rng, Data.random_splittable_value Fixtures.store_cv_nocache v rng
                    = Raises AttributeError)
  /\ Data.variables Fixtures.store_cv_nocache = dom (columns Fixtures.df_cv)
  /\ (forall v col, columns Fixtures.df_cv !! v = Some col ->
                    Data.unique_values Fixtures.store_cv_nocache v
                    = Ok (Np.unique col)).
Proof.
  apply (no_cache_raises_AttributeError
           Fixtures.df_cv [0; 1; 2; 3; 4] false Fixtures.store_cv_nocache).
  reflexivity.
Defined.

(** X4.  On a store built with [normalize=False] the response is stored as
    given and [unnormalize_y], [unnormalized_y] and [normalizing_scale]
    raise [AttributeError]: the original bounds were never recorded. *)
Theorem no_normalize_raises_AttributeError (X : DataFrame) (y : list Q)
  (cache : bool) (d : Data.t) :
  Data.__init__ X y false cache = Ok d ->
  Data.y d = y
  /\ (forall z, Data.unnormalize_y d z = Raise AttributeError)
  /\ Data.unnormalized_y d = Raise AttributeError
  /\ Data.normalizing_scale d = Raise AttributeError.
Proof.
  unfold Data.__init__. simpl. intros [= <-].
  unfold Data.unnormalized_y, Data.unnormalize_y, Data.normalizing_scale.
  simpl. auto.
Qed.

Lemma no_normalize_raises_AttributeError_witness :
  Data.y Fixtures.store_cv = [0; 1; 2; 3; 4]
  /\ (forall z, Data.unnormalize_y Fixtures.store_cv z = Raise AttributeError)
  /\ Data.unnormalized_y Fixtures.store_cv = Raise AttributeError
  /\ Data.normalizing_scale Fixtures.store_cv = Raise AttributeError.
Proof.
  apply (no_normalize_raises_AttributeError
           Fixtures.df_cv [0; 1; 2; 3; 4] true Fixtures.store_cv).
  reflexivity.
Defined.

End MissingAttributes.

(** ** The range of the normalised response *)

Section NormalisedRange.

Local Open Scope Q_scope.

Lemma fold_left_Qmin_init (t : list Q) (v : Q) : fold_left Qmin t v <= v.
Proof.
  revert v. induction t as [|w t IH]; intros v; simpl.
  - apply Qle_refl.
  - eapply Qle_trans; [apply IH|apply Q.le_min_l].
Qed.

Lemma fold_left_Qmin_lower (t : list Q) (v x : Q) :
  x ∈ v :: t -> fold_left Qmin t v <= x.
Proof.
  revert v. induction t as [|w t IH]; intros v Hin; simpl.
  - apply list_elem_of_singleton in Hin. subst. apply Qle_refl.
  - apply elem_of_cons in Hin as [->|Hin].
    + eapply Qle_trans; [apply fold_left_Qmin_init|apply Q.le_min_l].
    + apply elem_of_cons in Hin as [->|Hin].
      * eapply Qle_trans; [apply fold_left_Qmin_init|apply Q.le_min_r].
      * apply IH. right. exact Hin.
Qed.

Lemma Qmin_cases (a b : Q) : Qmin a b = a \/ Qmin a b = b.
Proof.
  unfold Qmin, GenericMinMax.gmin. destruct (a ?= b); auto.
Qed.

Lemma Qmax_cases (a b : Q) : Qmax a b = a \/ Qmax a b = b.
Proof.
  unfold Qmax, GenericMinMax.gmax. destruct (a ?= b); auto.
Qed.

Lemma fold_left_Qmin_elem (t : list Q) (v : Q) : fold_left Qmin t v ∈ v :: t.
Proof.
  revert v. induction t as [|w t IH]; intros v; simpl; [left|].
  specialize (IH (Qmin v w)).
  apply elem_of_cons in IH as [E|IH]; [|right; right; exact IH].
  rewrite E. destruct (Qmin_cases v w) as [-> | ->]; [left|right; left].
Qed.

Lemma fold_left_Qmax_elem (t : list Q) (v : Q) : fold_left Qmax t v ∈ v :: t.
Proof.
  revert v. induction t as [|w t IH]; intros v; simpl; [left|].
  specialize (IH (Qmax v w)).
  apply elem_of_cons in IH as [E|IH]; [|right; right; exact IH].
  rewrite E. destruct (Qmax_cases v w) as [-> | ->]; [left|right; left].
Qed.

(** [np.min] and [np.max] return an entry of the array that bounds all the
    others. *)
Lemma np_min_spec (y : list Q) (y_min : Q) :
  Np.min y = Ok y_min -> y_min ∈ y /\ forall v, v ∈ y -> y_min <= v.
Proof.
  destruct y as [|v t]; simpl; [discriminate|]. intros [= <-].
  split; [apply fold_left_Qmin_elem|apply fold_left_Qmin_lower].
Qed.

Lemma np_max_spec (y : list Q) (y_max : Q) :
  Np.max y = Ok y_max -> y_max ∈ y /\ forall v, v ∈ y -> v <= y_max.
Proof.
  destruct y as [|v t]; simpl; [discriminate|]. intros [= <-].
  split; [apply fold_left_Qmax_elem|apply fold_left_Qmax_upper].
Qed.

Lemma normalized_entry_mono (lo hi v w : Q) :
  lo < hi -> v <= w ->
  - (1 # 2) + ((v - lo) / (hi - lo)) <= - (1 # 2) + ((w - lo) / (hi - lo)).
Proof.
  intros Hlt Hvw.
  apply Qplus_le_r. unfold Qdiv. apply Qmult_le_compat_r.
  - apply Qplus_le_l. exact Hvw.
  - apply Qlt_le_weak, Qinv_lt_0_compat. rewrite <- (Qplus_opp_r lo).
    apply Qplus_lt_l. exact Hlt.
Qed.

Lemma normalized_entry_lo (lo hi : Q) :
  - (1 # 2) + ((lo - lo) / (hi - lo)) == - (1 # 2).
Proof. unfold Qdiv. ring. Qed.

Lemma normalized_entry_hi (lo hi : Q) :
  lo < hi -> - (1 # 2) + ((hi - lo) / (hi - lo)) == 1 # 2.
Proof.
  intros Hlt. field. intros Heq.
  assert (hi == lo) as E by (rewrite <- (Qplus_0_l lo), <- Heq; ring).
  rewrite E in Hlt. exact (Qlt_irrefl _ Hlt).
Qed.

End NormalisedRange.

Section NormalisedResponse.

Local Open Scope Q_scope.

Lemma bounds_apart (lo hi : Q) : lo < hi -> ~ hi - lo == 0.
Proof.
  intros Hlt Heq.
  assert (hi == lo) as E by (rewrite <- (Qplus_0_l lo), <- Heq; ring).
  rewrite E in Hlt. exact (Qlt_irrefl _ Hlt).
Qed.

(** X6.  For a response with [min y < max y], [normalize_y] returns an array
    of the same length whose entries lie in the closed interval
    [-1/2, 1/2]; both ends are attained, by the minimum and by the maximum
    of [y]. *)
Theorem normalize_y_range (y : list Q) (y_min y_max : Q) :
  Np.min y = Ok y_min -> Np.max y = Ok y_max -> y_min < y_max ->
  exists ny,
    Data.normalize_y y = Ok ny
    /\ length ny = length y
    /\ Forall (fun v => - (1 # 2) <= v /\ v <= 1 # 2) ny
    /\ Exists (fun v => v == - (1 # 2)) ny
    /\ Exists (fun v => v == 1 # 2) ny.
Proof.
  intros Hmin Hmax Hlt.
  destruct (np_min_spec y y_min Hmin) as [Hin_min Hlow].
  destruct (np_max_spec y y_max Hmax) as [Hin_max Hupp].
  eexists. split; [apply (normalize_y_ok y y_min y_max Hmin Hmax)|].
  split; [apply length_map|]. split; [|split].
  - apply Forall_forall. intros v' Hv'.
    apply list_elem_of_In, in_map_iff in Hv' as (v & <- & Hv).
    apply list_elem_of_In in Hv. split.
    + apply (Qle_trans _ (- (1 # 2) + ((y_min - y_min) / (y_max - y_min)))).
      * rewrite normalized_entry_lo. apply Qle_refl.
      * apply normalized_entry_mono; [exact Hlt|apply Hlow, Hv].
    + apply (Qle_trans _ (- (1 # 2) + ((y_max - y_min) / (y_max - y_min)))).
      * apply normalized_entry_mono; [exact Hlt|apply Hupp, Hv].
      * rewrite (normalized_entry_hi y_min y_max Hlt). apply Qle_refl.
  - apply Exists_exists. eexists. split.
    + apply list_elem_of_In, in_map, list_elem_of_In, Hin_min.
    + apply normalized_entry_lo.
  - apply Exists_exists. eexists. split.
    + apply list_elem_of_In, in_map, list_elem_of_In, Hin_max.
    + apply normalized_entry_hi, Hlt.
Qed.

Lemma normalize_y_range_witness :
  exists ny,
    Data.normalize_y [3; 1; 2] = Ok ny
    /\ length ny = length [3; 1; 2]
    /\ Forall (fun v => - (1 # 2) <= v /\ v <= 1 # 2) ny
    /\ Exists (fun v => v == - (1 # 2)) ny
    /\ Exists (fun v => v == 1 # 2) ny.
Proof.
  apply (normalize_y_range [3; 1; 2] 1 3); reflexivity.
Defined.

(** X7.  [normalize_y] keeps the order of the entries: where one entry of
    [y] is at most another, so are the normalised entries at the same
    positions. *)
Theorem normalize_y_preserves_order (y : list Q) (y_min y_max : Q)
  (i j : nat) (a b : Q) :
  Np.min y = Ok y_min -> Np.max y = Ok y_max -> y_min < y_max ->
  y !! i = Some a -> y !! j = Some b -> a <= b ->
  exists ny a' b',
    Data.normalize_y y = Ok ny
    /\ ny !! i = Some a' /\ ny !! j = Some b' /\ a' <= b'.
Proof.
  intros Hmin Hmax Hlt Hi Hj Hab.
  eexists. eexists. eexists.
  split; [apply (normalize_y_ok y y_min y_max Hmin Hmax)|].
  split; [|split].
  - change (map ?f y) with (f <$> y). rewrite list_lookup_fmap, Hi. reflexivity.
  - change (map ?f y) with (f <$> y). rewrite list_lookup_fmap, Hj. reflexivity.
  - apply normalized_entry_mono; assumption.
Qed.

Lemma normalize_y_preserves_order_witness :
  exists ny a' b',
    Data.normalize_y [3; 1; 2] = Ok ny
    /\ ny !! 1%nat = Some a' /\ ny !! 0%nat = Some b' /\ a' <= b'.
Proof.
  apply (normalize_y_preserves_order [3; 1; 2] 1 3 1 0 1 3);
    try reflexivity; discriminate.
Defined.

(** X8.  On a store built with normalisation over a response with
    [min y < max y], [normalizing_scale] is the positive width
    [max y - min y], and [unnormalize_y] maps every array within
    [-1/2, 1/2] to an array of the same length within [min y, max y]. *)
Theorem unnormalize_y_within_original_range (X : DataFrame) (y : list Q)
  (cache : bool) (d : Data.t) (lo hi : Q) :
  Data.__init__ X y true cache = Ok d ->
  Np.min y = Ok lo -> Np.max y = Ok hi -> lo < hi ->
  Data.normalizing_scale d = Ok (hi - lo)
  /\ 0 < hi - lo
  /\ forall z,
       Forall (fun v => - (1 # 2) <= v /\ v <= 1 # 2) z ->
       exists u,
         Data.unnormalize_y d z = Ok u
         /\ length u = length z
         /\ Forall (fun v => lo <= v /\ v <= hi) u.
Proof.
  intros Hd Hlo0 Hhi0 Hlt.
  destruct (init_normalized X y cache lo hi Hlo0 Hhi0)
    as (d' & Hd' & Hlo & Hhi & _).
  rewrite Hd in Hd'. injection Hd' as <-.
  assert (0 < hi - lo) as Hw.
  { rewrite <- (Qplus_opp_r lo). apply Qplus_lt_l. exact Hlt. }
  split; [|split; [exact Hw|]].
  - unfold Data.normalizing_scale. rewrite Hhi, Hlo. reflexivity.
  - intros z Hz. eexists. split; [apply (unnormalize_y_ok d lo hi z Hlo Hhi)|].
    split; [apply length_map|].
    apply Forall_forall. intros u Hu.
    apply list_elem_of_In, in_map_iff in Hu as (v & <- & Hv).
    apply list_elem_of_In in Hv.
    rewrite Forall_forall in Hz. destruct (Hz v Hv) as [H1 H2].
    assert (0 <= v - - (1 # 2)) as Hd0.
    { rewrite <- (Qplus_opp_r (- (1 # 2))). apply Qplus_le_l. exact H1. }
    assert (v - - (1 # 2) <= 1) as Hd1.
    { apply (Qle_trans _ ((1 # 2) - - (1 # 2))).
      - apply Qplus_le_l. exact H2.
      - vm_compute. discriminate. }
    split.
    + rewrite <- (Qplus_0_r lo) at 1. apply Qplus_le_r.
      apply Qmult_le_0_compat; [exact Hd0|apply Qlt_le_weak, Hw].
    + apply (Qle_trans _ (lo + 1 * (hi - lo))).
      * apply Qplus_le_r. apply Qmult_le_compat_r; [exact Hd1|].
        apply Qlt_le_weak, Hw.
      * apply Qle_lteq. right. ring.
Qed.

Lemma unnormalize_y_within_original_range_witness :
  Data.normalizing_scale Examples.store_123 = Ok (3 - 1)
  /\ 0 < 3 - 1
  /\ forall z,
       Forall (fun v => - (1 # 2) <= v /\ v <= 1 # 2) z ->
       exists u,
         Data.unnormalize_y Examples.store_123 z = Ok u
         /\ length u = length z
         /\ Forall (fun v => 1 <= v /\ v <= 3) u.
Proof.
  apply (unnormalize_y_within_original_range
           {| n_rows := 3; columns := ∅ |} [1; 2; 3] false
           Examples.store_123 1 3); reflexivity.
Defined.

End NormalisedResponse.

Section ReverseRoundTrip.

Local Open Scope Q_scope.

Lemma unnormalized_entry_bounds (lo hi v : Q) :
  lo < hi -> - (1 # 2) <= v -> v <= 1 # 2 ->
  lo <= lo + (v - - (1 # 2)) * (hi - lo)
  /\ lo + (v - - (1 # 2)) * (hi - lo) <= hi.
Proof.
  intros Hlt H1 H2.
  assert (0 < hi - lo) as Hw.
  { rewrite <- (Qplus_opp_r lo). apply Qplus_lt_l. exact Hlt. }
  assert (0 <= v - - (1 # 2)) as Hd0.
  { rewrite <- (Qplus_opp_r (- (1 # 2))). apply Qplus_le_l. exact H1. }
  assert (v - - (1 # 2) <= 1) as Hd1.
  { apply (Qle_trans _ ((1 # 2) - - (1 # 2))).
    - apply Qplus_le_l. exact H2.
    - vm_compute. discriminate. }
  split.
  - rewrite <- (Qplus_0_r lo) at 1. apply Qplus_le_r.
    apply Qmult_le_0_compat; [exact Hd0|apply Qlt_le_weak, Hw].
  - apply (Qle_trans _ (lo + 1 * (hi - lo))).
    + apply Qplus_le_r. apply Qmult_le_compat_r; [exact Hd1|].
      apply Qlt_le_weak, Hw.
    + apply Qle_lteq. right. ring.
Qed.

Lemma normalize_unnormalize_entry (lo hi m M v : Q) :
  lo < hi -> m == lo -> M == hi ->
  - (1 # 2) + ((lo + (v - - (1 # 2)) * (hi - lo) - m) / (M - m)) == v.
Proof.
  intros Hlt Em EM. rewrite Em, EM. field. apply bounds_apart, Hlt.
Qed.

(** X9.  The round trip in the other direction: on a store built with
    normalisation over a response with [min y < max y], an array [z] within
    [-1/2, 1/2] that attains both ends is given back by
    [normalize_y (unnormalize_y z)]. *)
Theorem normalize_unnormalize_roundtrip (X : DataFrame) (y : list Q)
  (cache : bool) (d : Data.t) (lo hi : Q) (z : list Q) :
  Data.__init__ X y true cache = Ok d ->
  Np.min y = Ok lo -> Np.max y = Ok hi -> lo < hi ->
  Forall (fun v => - (1 # 2) <= v /\ v <= 1 # 2) z ->
  Exists (fun v => v == - (1 # 2)) z ->
  Exists (fun v => v == 1 # 2) z ->
  exists u nz,
    Data.unnormalize_y d z = Ok u
    /\ Data.normalize_y u = Ok nz
    /\ Forall2 Qeq nz z.
Proof.
  intros Hd Hlo0 Hhi0 Hlt Hz Hbot Htop.
  destruct (init_normalized X y cache lo hi Hlo0 Hhi0)
    as (d' & Hd' & Hlo & Hhi & _).
  rewrite Hd in Hd'. injection Hd' as <-.
  set (g := fun v => lo + (v - - (1 # 2)) * (hi - lo)).
  assert (Data.unnormalize_y d z = Ok (map g z)) as Hu
    by apply (unnormalize_y_ok d lo hi z Hlo Hhi).
  rewrite Forall_forall in Hz.
  assert (forall u, u ∈ map g z -> lo <= u /\ u <= hi) as Hrange.
  { intros u Hin. apply list_elem_of_In, in_map_iff in Hin as (v & <- & Hv).
    apply list_elem_of_In in Hv. destruct (Hz v Hv).
    apply unnormalized_entry_bounds; assumption. }
  apply Exists_exists in Hbot as (zb & Hzb & Ezb).
  apply Exists_exists in Htop as (zt & Hzt & Ezt).
  assert (g zb == lo) as Egb by (unfold g; rewrite Ezb; ring).
  assert (g zt == hi) as Egt by (unfold g; rewrite Ezt; ring).
  assert (g zb ∈ map g z) as Hgb
    by (apply list_elem_of_In, in_map, list_elem_of_In, Hzb).
  assert (g zt ∈ map g z) as Hgt
    by (apply list_elem_of_In, in_map, list_elem_of_In, Hzt).
  destruct (Np.min (map g z)) as [m|e] eqn:Hmin.
  2:{ destruct z; [inversion Hzb|discriminate]. }
  destruct (Np.max (map g z)) as [M|e] eqn:Hmax.
  2:{ destruct z; [inversion Hzb|discriminate]. }
  destruct (np_min_spec _ m Hmin) as [Hm_in Hm_low].
  destruct (np_max_spec _ M Hmax) as [HM_in HM_upp].
  assert (m == lo) as Em.
  { apply Qle_antisym.
    - rewrite <- Egb. apply Hm_low, Hgb.
    - apply (Hrange m Hm_in). }
  assert (M == hi) as EM.
  { apply Qle_antisym.
    - apply (Hrange M HM_in).
    - rewrite <- Egt. apply HM_upp, Hgt. }
  exists (map g z). eexists. split; [exact Hu|].
  split; [apply (normalize_y_ok _ m M Hmin Hmax)|].
  rewrite map_map. clear -Hlt Em EM.
  induction z as [|v z IH]; simpl; constructor; [|exact IH].
  unfold g. apply normalize_unnormalize_entry; assumption.
Qed.

Lemma normalize_unnormalize_roundtrip_witness :
  exists u nz,
    Data.unnormalize_y Examples.store_123 [1 # 2; 0; - (1 # 2)] = Ok u
    /\ Data.normalize_y u = Ok nz
    /\ Forall2 Qeq nz [1 # 2; 0; - (1 # 2)].
Proof.
  apply (normalize_unnormalize_roundtrip
           {| n_rows := 3; columns := ∅ |} [1; 2; 3] false
           Examples.store_123 1 3 [1 # 2; 0; - (1 # 2)]);
    try reflexivity.
  - repeat constructor; discriminate.
  - apply Exists_cons_tl, Exists_cons_tl, Exists_cons_hd. reflexivity.
  - apply Exists_cons_hd. reflexivity.
Defined.

End ReverseRoundTrip.

(** ** Values of a variable *)

Section ValuesOfVariable.

Local Open Scope Q_scope.

Lemma nunique_le_length (col : list Q) : (Np.nunique col <= length col)%nat.
Proof.
  unfold Np.nunique. induction col as [|v t IH]; simpl; [lia|].
  destruct (existsb (Qeq_bool v) t); simpl; lia.
Qed.

Lemma nunique_pos (col : list Q) : col <> [] -> (1 <= Np.nunique col)%nat.
Proof.
  unfold Np.nunique. induction col as [|v t IH]; [congruence|]. intros _. simpl.
  destruct (existsb (Qeq_bool v) t) eqn:E; simpl; [|lia].
  apply IH. intros ->. discriminate.
Qed.

(** X10.  On a store with caches, the cached [n_unique_values(v)] is the
    number of [unique_values(v)] computed from the frame, between 1 and the
    number of rows of a non-empty column; for a variable that is not a
    column both raise [KeyError], and so does [random_splittable_value],
    before any draw is read. *)
Theorem n_unique_values_agrees (X : DataFrame) (y : list Q)
  (normalize : bool) (d : Data.t) (v : string) :
  Data.__init__ X y normalize true = Ok d ->
  match columns X !! v with
  | Some col =>
      Data.unique_values d v = Ok (Np.unique col)
      /\ Data.n_unique_values d v = Ok (length (Np.unique col))
      /\ (length (Np.unique col) <= length col)%nat
      /\ (col <> [] -> (1 <= length (Np.unique col))%nat)
  | None =>
      Data.unique_values d v = Raise KeyError
      /\ Data.n_unique_values d v = Raise KeyError
      /\ forall rng, Data.random_splittable_value d v rng = Raises KeyError
  end.
Proof.
  intros Hd. destruct (init_cached X y normalize d Hd) as (HX & Hc & Hm).
  unfold Data.unique_values, Data.n_unique_values, Data.random_splittable_value,
    Random.bind, Random.lift, Data.getitem.
  rewrite HX, Hc, Hm. simpl. rewrite !lookup_fmap.
  destruct (columns X !! v) as [col|]; simpl.
  - split; [reflexivity|]. split; [reflexivity|].
    split; [apply nunique_le_length|apply nunique_pos].
  - auto.
Qed.

Lemma n_unique_values_agrees_witness :
  match columns Fixtures.df_cv !! "v" with
  | Some col =>
      Data.unique_values Fixtures.store_cv "v" = Ok (Np.unique col)
      /\ Data.n_unique_values Fixtures.store_cv "v" = Ok (length (Np.unique col))
      /\ (length (Np.unique col) <= length col)%nat
      /\ (col <> [] -> (1 <= length (Np.unique col))%nat)
  | None =>
      Data.unique_values Fixtures.store_cv "v" = Raise KeyError
      /\ Data.n_unique_values Fixtures.store_cv "v" = Raise KeyError
      /\ forall rng,
           Data.random_splittable_value Fixtures.store_cv "v" rng
           = Raises KeyError
  end.
Proof.
  apply (n_unique_values_agrees
           Fixtures.df_cv [0; 1; 2; 3; 4] false Fixtures.store_cv "v").
  reflexivity.
Defined.

(** A column with a single distinct value holds that value in every row. *)
Lemma nunique_le_1_all_equal (col : list Q) :
  (Np.nunique col <= 1)%nat -> forall a b, a ∈ col -> b ∈ col -> a == b.
Proof.
  unfold Np.nunique. induction col as [|v t IH]; simpl.
  { intros _ a b Ha. inversion Ha. }
  destruct (existsb (Qeq_bool v) t) eqn:E; simpl; intros Hn a b Ha Hb.
  - apply existsb_exists in E as (w & Hw & Evw).
    apply Qeq_bool_iff in Evw. apply list_elem_of_In in Hw.
    assert (forall c, c ∈ v :: t -> c == w) as Hall.
    { intros c [->|Hc]%elem_of_cons; [exact Evw|]. apply IH; assumption. }
    rewrite (Hall a Ha), (Hall b Hb). reflexivity.
  - assert (t = []) as ->.
    { destruct t as [|w t']; [reflexivity|]. exfalso.
      assert (w :: t' <> []) as Hne by congruence.
      pose proof (nunique_pos (w :: t') Hne) as Hp.
      unfold Np.nunique in Hp. lia. }
    apply list_elem_of_singleton in Ha, Hb. subst. reflexivity.
Qed.

Lemma column_max_elem (col : list Q) (m : Q) :
  Np.column_max col = Some m -> m ∈ col.
Proof.
  destruct col as [|v t]; simpl; [discriminate|]. intros [= <-].
  apply fold_left_Qmax_elem.
Qed.

(** X11.  On a store with caches, [random_splittable_value] never returns
    for a variable with a single distinct value: on every tape, however
    long, the loop is still running when the tape is used up. *)
Theorem random_splittable_value_constant_column_loops (X : DataFrame)
  (y : list Q) (normalize : bool) (d : Data.t) (v : string) :
  Data.__init__ X y normalize true = Ok d ->
  Data.n_unique_values d v = Ok 1%nat ->
  forall rng, Data.random_splittable_value d v rng = Starved.
Proof.
  intros Hd Hn rng.
  destruct (cached_cardinality X y normalize d v 1 Hd Hn) as (col & Hcol & Hcard).
  assert (col <> []) as Hne.
  { intros ->. vm_compute in Hcard. discriminate. }
  destruct (column_max_is_Some col Hne) as (m & Hmax).
  pose proof (column_max_elem col m Hmax) as Hm.
  pose proof (random_splittable_value_starved X y normalize d v col m rng
                Hd Hcol Hne Hmax) as Hs.
  assert (forallb (fun r => Qeq_bool (pick col 0 r) m) rng = true) as Hall.
  { apply forallb_forall. intros r _. apply Qeq_bool_iff.
    apply (nunique_le_1_all_equal col); [lia| |exact Hm].
    apply pick_elem_of, Hne. }
  rewrite Hall in Hs.
  destruct (Data.random_splittable_value d v rng); try discriminate.
  reflexivity.
Qed.

Lemma random_splittable_value_constant_column_loops_witness :
  Data.random_splittable_value Fixtures.store_cv "c" [3; 0; 4; 1; 2; 2]%nat
  = Starved.
Proof.
  apply (random_splittable_value_constant_column_loops
           Fixtures.df_cv [0; 1; 2; 3; 4] false Fixtures.store_cv "c");
    reflexivity.
Defined.

(** X12.  On a store with caches and a non-empty column [v], the values
    [random_splittable_value v] can return are exactly the observed values
    strictly below the maximum; each of them is returned by a first draw,
    and each has an observed value strictly above it, so a split at the
    returned value leaves rows on both sides. *)
Theorem random_splittable_value_support (X : DataFrame) (y : list Q)
  (normalize : bool) (d : Data.t) (v : string) (col : list Q) (m : Q) :
  Data.__init__ X y normalize true = Ok d ->
  columns X !! v = Some col -> Np.column_max col = Some m ->
  (forall x,
     (exists rng rest, Data.random_splittable_value d v rng = Returns x rest)
     <-> x ∈ col /\ x < m)
  /\ (forall x, x ∈ col -> x < m ->
        exists r, (r < length col)%nat
                  /\ forall rest,
                       Data.random_splittable_value d v (r :: rest)
                       = Returns x rest)
  /\ (forall rng x rest,
        Data.random_splittable_value d v rng = Returns x rest ->
        exists below above,
          below ∈ col /\ below <= x /\ above ∈ col /\ x < above).
Proof.
  intros Hd Hcol Hmax.
  assert (col <> []) as Hne by (intros ->; discriminate).
  assert (forall rng x rest,
            Data.random_splittable_value d v rng = Returns x rest ->
            x ∈ col /\ x < m) as Hret.
  { intros rng x rest Hr.
    rewrite (random_splittable_value_unfold X y normalize d v col rng Hd Hcol Hne)
      in Hr.
    destruct rng as [|r rng]; [discriminate|].
    pose proof (redraw_cases col (Np.column_max col) (pick col 0 r) rng Hne
                  (pick_elem_of col 0 r Hne)) as H.
    rewrite Hr, Hmax in H. destruct H as [Hin Hneq].
    split; [exact Hin|]. eapply eq_value_false_lt; eassumption. }
  assert (forall x, x ∈ col -> x < m ->
            exists r, (r < length col)%nat
                      /\ forall rest,
                           Data.random_splittable_value d v (r :: rest)
                           = Returns x rest) as Hreach.
  { intros x Hx Hxm.
    destruct (pick_surjective col 0 x Hx) as (r & Hr & Hpick).
    exists r. split; [exact Hr|]. intros rest.
    rewrite (random_splittable_value_unfold X y normalize d v col _ Hd Hcol Hne).
    rewrite Hmax, Hpick.
    assert (Qeq_bool x m = false) as E.
    { destruct (Qeq_bool x m) eqn:E; [|reflexivity].
      apply Qeq_bool_iff in E. rewrite E in Hxm.
      exfalso. exact (Qlt_irrefl _ Hxm). }
    destruct rest; simpl; rewrite E; reflexivity. }
  split; [|split; [exact Hreach|]].
  - intros x. split.
    + intros (rng & rest & Hr). eapply Hret, Hr.
    + intros [Hx Hxm]. destruct (Hreach x Hx Hxm) as (r & _ & Hr).
      exists [r], []. apply Hr.
  - intros rng x rest Hr. destruct (Hret rng x rest Hr) as [Hx Hxm].
    exists x, m. split; [exact Hx|]. split; [apply Qle_refl|].
    split; [apply column_max_elem, Hmax|exact Hxm].
Qed.

Lemma random_splittable_value_support_witness :
  (forall x,
     (exists rng rest,
        Data.random_splittable_value Fixtures.store_cv "v" rng = Returns x rest)
     <-> x ∈ [1; 2; 2; 3; 1] /\ x < 3)
  /\ (forall x, x ∈ [1; 2; 2; 3; 1] -> x < 3 ->
        exists r, (r < length [1; 2; 2; 3; 1])%nat
                  /\ forall rest,
                       Data.random_splittable_value Fixtures.store_cv "v"
                         (r :: rest)
                       = Returns x rest)
  /\ (forall rng x rest,
        Data.random_splittable_value Fixtures.store_cv "v" rng
        = Returns x rest ->
        exists below above,
          below ∈ [1; 2; 2; 3; 1] /\ below <= x
          /\ above ∈ [1; 2; 2; 3; 1] /\ x < above).
Proof.
  apply (random_splittable_value_support
           Fixtures.df_cv [0; 1; 2; 3; 4] false Fixtures.store_cv "v"
           [1; 2; 2; 3; 1] 3); reflexivity.
Defined.

End ValuesOfVariable.

(** ** One-character variable names *)

Section OneCharacterNames.

Lemma str_getitem0_one_character (name : string) :
  String.length name = 1%nat -> str_getitem0 name = Ok name.
Proof.
  destruct name as [|c [|c' s]]; simpl; try discriminate. reflexivity.
Qed.

(** X13.  When every splittable variable has a one-character name,
    [random_splittable_variable] does return a member of
    [splittable_variables()], reading exactly one draw, and every member is
    returned by some draw below the size of the set. *)
Theorem random_splittable_variable_one_character_names (d : Data.t)
  (vars : gset string) :
  Data.splittable_variables d = Ok vars ->
  vars <> ∅ ->
  (forall name, name ∈ vars -> String.length name = 1%nat) ->
  (forall r rest,
     exists name, name ∈ vars
                  /\ Data.random_splittable_variable d (r :: rest)
                     = Returns name rest)
  /\ (forall name, name ∈ vars ->
        exists r, (r < size vars)%nat
                  /\ forall rest,
                       Data.random_splittable_variable d (r :: rest)
                       = Returns name rest).
Proof.
  intros Hv Hne Hlen.
  assert (forall r rest,
            Data.random_splittable_variable d (r :: rest)
            = match elements vars with
              | [] => Raises NoSplittableVariableException
              | x0 :: l => Returns (pick (x0 :: l) x0 r) rest
              end) as Hunfold.
  { intros r rest.
    unfold Data.random_splittable_variable, Random.bind, Random.lift.
    rewrite Hv. destruct (elements vars) as [|x0 l] eqn:E; [reflexivity|].
    simpl.
    assert (pick (x0 :: l) x0 r ∈ vars) as Hin.
    { apply elem_of_elements. rewrite E. apply pick_elem_of. congruence. }
    rewrite (str_getitem0_one_character _ (Hlen _ Hin)). reflexivity. }
  destruct (elements vars) as [|x0 l] eqn:E.
  { apply elements_empty_inv in E. apply leibniz_equiv in E. contradiction. }
  split.
  - intros r rest. exists (pick (x0 :: l) x0 r). split; [|apply Hunfold].
    apply elem_of_elements. rewrite E. apply pick_elem_of. congruence.
  - intros name Hin. apply elem_of_elements in Hin. rewrite E in Hin.
    destruct (pick_surjective (x0 :: l) x0 name Hin) as (r & Hr & Hpick).
    exists r. split.
    + unfold size, set_size. simpl. rewrite E. exact Hr.
    + intros rest. rewrite Hunfold, Hpick. reflexivity.
Qed.

Lemma random_splittable_variable_one_character_names_witness :
  (forall r rest,
     exists name, name ∈ ({[ "a"; "b" ]} : gset string)
                  /\ Data.random_splittable_variable Fixtures.store_ab (r :: rest)
                     = Returns name rest)
  /\ (forall name, name ∈ ({[ "a"; "b" ]} : gset string) ->
        exists r, (r < size ({[ "a"; "b" ]} : gset string))%nat
                  /\ forall rest,
                       Data.random_splittable_variable Fixtures.store_ab
                         (r :: rest)
                       = Returns name rest).
Proof.
  apply (random_splittable_variable_one_character_names
           Fixtures.store_ab {[ "a"; "b" ]}).
  - reflexivity.
  - intros H. assert ("a" ∈ (∅ : gset string)) as Hin
      by (rewrite <- H; set_solver).
    set_solver.
  - intros name [->%elem_of_singleton | ->%elem_of_singleton]%elem_of_union;
      reflexivity.
Defined.

End OneCharacterNames.

(** * Further properties of the sigma sampler *)

Section SigmaSamplerFurther.

Local Open Scope R_scope.

Variable np_random_gamma : R -> R -> R.

Lemma np_sum_square_nonneg (r : list R) :
  0 <= SigmaSampler.np_sum (SigmaSampler.np_square r).
Proof. rewrite np_sum_square. apply sum_of_squares_nonneg. Qed.

(** X14.  The value [sample] returns does not depend on the current value of
    the holder, so with the same gamma draw a second [step] writes the same
    value again: stepping twice leaves the store as stepping once. *)
Theorem step_forgets_current_value (model : Model.t)
  (sigma : SigmaSampler.ref) (h : SigmaSampler.store) :
  (forall s value,
     SigmaSampler.sample np_random_gamma model (Sigma.set_value s value)
     = SigmaSampler.sample np_random_gamma model s)
  /\ SigmaSampler.step np_random_gamma model sigma
       (snd (SigmaSampler.step np_random_gamma model sigma h))
     = SigmaSampler.step np_random_gamma model sigma h.
Proof.
  split; [reflexivity|].
  unfold SigmaSampler.step. simpl. f_equal.
  apply map_eq. intros l. destruct (decide (l = sigma)) as [->|Hne].
  - rewrite !lookup_alter_eq. destruct (h !! sigma); reflexivity.
  - rewrite !lookup_alter_ne by congruence. reflexivity.
Qed.

(** X15.  On a positive gamma draw [g], the value [sample] returns is the
    standard deviation of the precision [g]: its square times [g] is 1. *)
Theorem sample_squared_is_inverse_draw (model : Model.t) (s : Sigma.t) :
  let g :=
    np_random_gamma
      (Sigma.alpha s + INR (Data.n_obsv (Model.data model)) / 2)
      (1 / (Sigma.beta s
            + 0.5 * SigmaSampler.np_sum
                      (SigmaSampler.np_square (Model.residuals model)))) in
  0 < g ->
  SigmaSampler.sample np_random_gamma model s
  * SigmaSampler.sample np_random_gamma model s * g = 1.
Proof.
  intros g Hg. unfold SigmaSampler.sample. fold g.
  rewrite (np_power_inverse_sqrt g Hg).
  pose proof (sqrt_lt_R0 g Hg) as Hs.
  rewrite <- (sqrt_sqrt g) at 3 by lra.
  field. lra.
Qed.

(** X16.  With positive prior hyperparameters the gamma draw is requested
    with valid parameters whatever the model state: the shape is at least
    [alpha], and the scale is positive and at most [1 / beta]. *)
Theorem sample_requests_valid_gamma (model : Model.t) (s : Sigma.t) :
  0 < Sigma.alpha s -> 0 < Sigma.beta s ->
  exists shape scale,
    Sigma.alpha s <= shape
    /\ 0 < scale /\ scale <= 1 / Sigma.beta s
    /\ forall gamma : R -> R -> R,
         SigmaSampler.sample gamma model s
         = SigmaSampler.np_power (gamma shape scale) (- 0.5).
Proof.
  intros Ha Hb.
  pose proof (np_sum_square_nonneg (Model.residuals model)) as Hss.
  pose proof (pos_INR (Data.n_obsv (Model.data model))) as Hn.
  eexists. eexists. split; [|split; [|split; [|intros gamma; reflexivity]]].
  - lra.
  - unfold Rdiv. rewrite Rmult_1_l. apply Rinv_0_lt_compat. lra.
  - unfold Rdiv. rewrite !Rmult_1_l. apply Rinv_le_contravar; lra.
Qed.

End SigmaSamplerFurther.

Section SigmaSamplerFurtherExamples.

Local Open Scope R_scope.

Lemma sample_squared_is_inverse_draw_witness :
  SigmaSampler.sample Examples.gamma_mean Examples.model_x1 Examples.sigma_1
  * SigmaSampler.sample Examples.gamma_mean Examples.model_x1 Examples.sigma_1
  * Examples.gamma_mean
      (Sigma.alpha Examples.sigma_1
       + INR (Data.n_obsv (Model.data Examples.model_x1)) / 2)
      (1 / (Sigma.beta Examples.sigma_1
            + 0.5 * SigmaSampler.np_sum
                      (SigmaSampler.np_square
                         (Model.residuals Examples.model_x1))))
  = 1.
Proof.
  apply (sample_squared_is_inverse_draw Examples.gamma_mean
           Examples.model_x1 Examples.sigma_1).
  apply gamma_mean_positive; simpl; lra.
Defined.

Lemma sample_requests_valid_gamma_witness :
  exists shape scale,
    Sigma.alpha Examples.sigma_1 <= shape
    /\ 0 < scale /\ scale <= 1 / Sigma.beta Examples.sigma_1
    /\ forall gamma : R -> R -> R,
         SigmaSampler.sample gamma Examples.model_x1 Examples.sigma_1
         = SigmaSampler.np_power (gamma shape scale) (- 0.5).
Proof.
  apply (sample_requests_valid_gamma Examples.model_x1 Examples.sigma_1);
    simpl; lra.
Defined.

End SigmaSamplerFurtherExamples.

(** * Further properties of the feature-selection wrappers *)

Section SplitProportionSelector.

Import SelectSplitProportionThreshold.

Local Open Scope Q_scope.

Context {SklearnModel : Type}.

Lemma gt_spec (proportion percentile : Q) :
  gt proportion percentile = true <-> percentile < proportion.
Proof.
  unfold gt. rewrite negb_true_iff. split.
  - intros H. apply Qnot_le_lt. intros Hle.
    apply Qle_bool_iff in Hle. congruence.
  - intros Hlt. destruct (Qle_bool proportion percentile) eqn:E; [|reflexivity].
    apply Qle_bool_iff in E. exfalso. exact (Qlt_not_le _ _ Hlt E).
Qed.

(** X17.  [_get_support_mask] raises [AttributeError] exactly while
    [feature_proportions] is unset, as on a freshly constructed selector;
    once it is set, the mask has one entry per feature, in the order of the
    dict, and an entry is true exactly when the proportion of its feature is
    strictly above the percentile. *)
Theorem support_mask_after_fit (self : t SklearnModel) :
  match feature_proportions _ self with
  | None => _get_support_mask _ self = Raise AttributeError
  | Some fp =>
      exists mask,
        _get_support_mask _ self = Ok mask
        /\ length mask = length fp
        /\ forall i feature proportion,
             fp !! i = Some (feature, proportion) ->
             exists b, mask !! i = Some b
                       /\ (b = true <-> percentile _ self < proportion)
  end.
Proof.
  unfold _get_support_mask. destruct (feature_proportions _ self) as [fp|]; simpl.
  - eexists. split; [reflexivity|]. unfold values.
    split; [rewrite !length_map; reflexivity|].
    intros i feature proportion Hi. eexists. split.
    + change (map ?f (map ?g fp)) with (f <$> (g <$> fp)).
      rewrite !list_lookup_fmap, Hi. reflexivity.
    + apply gt_spec.
  - reflexivity.
Qed.

Lemma support_mask_fresh (model : SklearnModel) (pct : Q) :
  _get_support_mask _ (__init__ _ model pct) = Raise AttributeError.
Proof. reflexivity. Qed.

(** X18.  Raising the percentile can only shrink the support: for two
    selectors over the same feature proportions, every feature kept under
    the higher percentile is kept under the lower one. *)
Theorem support_mask_antitone (self self' : t SklearnModel)
  (fp : list (string * Q)) :
  feature_proportions _ self = Some fp ->
  feature_proportions _ self' = Some fp ->
  percentile _ self <= percentile _ self' ->
  exists mask mask',
    _get_support_mask _ self = Ok mask
    /\ _get_support_mask _ self' = Ok mask'
    /\ Forall2 (fun b b' => b' = true -> b = true) mask mask'.
Proof.
  intros Hfp Hfp' Hle. unfold _get_support_mask. rewrite Hfp, Hfp'. simpl.
  eexists. eexists. split; [reflexivity|]. split; [reflexivity|].
  induction (values fp) as [|p l IH]; simpl; constructor; [|exact IH].
  rewrite !gt_spec. intros H. eapply Qle_lt_trans; eassumption.
Qed.

End SplitProportionSelector.

Section SplitProportionSelectorExamples.

Import SelectSplitProportionThreshold.

Local Open Scope Q_scope.

Lemma support_mask_antitone_witness :
  exists mask mask',
    _get_support_mask unit
      {| model := tt; percentile := 1 # 5; X := None; y := None;
         feature_proportions := Some [("a", 1 # 2); ("b", 1 # 4); ("c", 1 # 10)] |}
    = Ok mask
    /\ _get_support_mask unit
         {| model := tt; percentile := 3 # 10; X := None; y := None;
            feature_proportions := Some [("a", 1 # 2); ("b", 1 # 4); ("c", 1 # 10)] |}
       = Ok mask'
    /\ Forall2 (fun b b' => b' = true -> b = true) mask mask'.
Proof.
  apply (support_mask_antitone
           {| model := tt; percentile := 1 # 5; X := None; y := None;
              feature_proportions := Some [("a", 1 # 2); ("b", 1 # 4); ("c", 1 # 10)] |}
           {| model := tt; percentile := 3 # 10; X := None; y := None;
              feature_proportions := Some [("a", 1 # 2); ("b", 1 # 4); ("c", 1 # 10)] |}
           [("a", 1 # 2); ("b", 1 # 4); ("c", 1 # 10)]).
  - reflexivity.
  - reflexivity.
  - simpl. discriminate.
Defined.

End SplitProportionSelectorExamples.

Section NullDistributionSelector.

Import SelectNullDistributionThreshold.

Lemma eq_str_true (v : value) (s : string) :
  eq_str v s = true <-> v = Str s.
Proof.
  destruct v as [s'|repr]; simpl.
  - rewrite String.eqb_eq. split; [intros ->; reflexivity|intros [= ->]; reflexivity].
  - split; discriminate.
Qed.

(** X19.  The constructor of [SelectNullDistributionThreshold] succeeds
    exactly for the methods ["local"] and ["global"]; the instance then
    holds the four attributes [method], [model], [percentile] and
    [n_permutations], with the thresholding function of the chosen method
    and the arguments as given.  For any other method it raises
    [AttributeError]. *)
Theorem init_succeeds_iff (model percentile method n_permutations : value) :
  match __init__ new model percentile method n_permutations with
  | Ok self =>
      (method = Str "local" \/ method = Str "global")
      /\ dom self = {[ "method"; "model"; "percentile"; "n_permutations" ]}
      /\ self !! "model" = Some model
      /\ self !! "percentile" = Some percentile
      /\ self !! "n_permutations" = Some n_permutations
      /\ self !! "method"
         = Some (if eq_str method "local"
                 then local_thresholds else global_thresholds)
  | Raise e =>
      e = AttributeError
      /\ method <> Str "local" /\ method <> Str "global"
  end.
Proof.
  unfold __init__, new, setattr, getattr.
  destruct (eq_str method "local") eqn:El; simpl.
  - split; [left; apply eq_str_true, El|].
    split; [|split; [|split; [|split]]];
      try (repeat (rewrite lookup_insert_ne by discriminate);
           apply lookup_insert_eq).
    rewrite !dom_insert_L, dom_empty_L. set_solver.
  - destruct (eq_str method "global") eqn:Eg; simpl.
    + split; [right; apply eq_str_true, Eg|].
      split; [|split; [|split; [|split]]];
        try (repeat (rewrite lookup_insert_ne by discriminate);
             apply lookup_insert_eq).
      rewrite !dom_insert_L, dom_empty_L. set_solver.
    + rewrite lookup_empty. simpl. split; [reflexivity|].
      split; intros H; apply eq_str_true in H; congruence.
Qed.

End NullDistributionSelector.

(** * Draw by draw *)

Section DrawByDraw.

Local Open Scope Q_scope.

(** X20.  [random_splittable_value] is rejection sampling over the rows: a
    draw that selects a row below the maximum is returned at once, with the
    multiplicity of its value in the column, and a draw that selects a
    maximal row is forgotten, the call going on as if started on the rest of
    the draws. *)
Theorem random_splittable_value_draw_by_draw (X : DataFrame) (y : list Q)
  (normalize : bool) (d : Data.t) (v : string) (col : list Q) (m : Q)
  (r : nat) (rest : tape) :
  Data.__init__ X y normalize true = Ok d ->
  columns X !! v = Some col -> Np.column_max col = Some m ->
  (pick col 0 r < m ->
   Data.random_splittable_value d v (r :: rest) = Returns (pick col 0 r) rest)
  /\ (pick col 0 r == m ->
      Data.random_splittable_value d v (r :: rest)
      = Data.random_splittable_value d v rest)
  /\ (pick col 0 r < m \/ pick col 0 r == m).
Proof.
  intros Hd Hcol Hmax.
  assert (col <> []) as Hne by (intros ->; discriminate).
  rewrite (random_splittable_value_unfold X y normalize d v col (r :: rest)
             Hd Hcol Hne).
  rewrite (random_splittable_value_unfold X y normalize d v col rest
             Hd Hcol Hne).
  rewrite Hmax. split; [|split].
  - intros Hlt.
    assert (Qeq_bool (pick col 0 r) m = false) as E.
    { destruct (Qeq_bool (pick col 0 r) m) eqn:E; [|reflexivity].
      apply Qeq_bool_iff in E. rewrite E in Hlt.
      exfalso. exact (Qlt_irrefl _ Hlt). }
    destruct rest; simpl; rewrite E; reflexivity.
  - intros Heq. apply Qeq_bool_iff in Heq.
    destruct rest as [|r' rest']; simpl; rewrite Heq; [reflexivity|].
    rewrite (pick_default col (pick col 0 r) 0 r' Hne). reflexivity.
  - pose proof (column_max_upper col m (pick col 0 r) Hmax
                  (pick_elem_of col 0 r Hne)) as Hle.
    apply Qle_lteq in Hle. exact Hle.
Qed.

Lemma random_splittable_value_draw_by_draw_witness :
  (pick [1; 2; 2; 3; 1] 0 3 < 3 ->
   Data.random_splittable_value Fixtures.store_cv "v" [3; 1]%nat
   = Returns (pick [1; 2; 2; 3; 1] 0 3) [1%nat])
  /\ (pick [1; 2; 2; 3; 1] 0 3 == 3 ->
      Data.random_splittable_value Fixtures.store_cv "v" [3; 1]%nat
      = Data.random_splittable_value Fixtures.store_cv "v" [1%nat])
  /\ (pick [1; 2; 2; 3; 1] 0 3 < 3 \/ pick [1; 2; 2; 3; 1] 0 3 == 3).
Proof.
  apply (random_splittable_value_draw_by_draw
           Fixtures.df_cv [0; 1; 2; 3; 4] false Fixtures.store_cv "v"
           [1; 2; 2; 3; 1] 3 3 [1%nat]); reflexivity.
Defined.

(** X21.  With one-character names the choice of the variable is uniform
    over the set: among the draws below the size of the set, each member of
    [splittable_variables()] is returned by exactly one. *)
Theorem random_splittable_variable_uniform (d : Data.t) (vars : gset string)
  (name : string) :
  Data.splittable_variables d = Ok vars ->
  (forall n, n ∈ vars -> String.length n = 1%nat) ->
  name ∈ vars ->
  exists r,
    (r < size vars)%nat
    /\ (forall rest,
          Data.random_splittable_variable d (r :: rest) = Returns name rest)
    /\ (forall r' rest,
          (r' < size vars)%nat ->
          Data.random_splittable_variable d (r' :: rest) = Returns name rest ->
          r' = r).
Proof.
  intros Hv Hlen Hname.
  assert (size vars = length (elements vars)) as Hsize by reflexivity.
  pose proof (proj1 (NoDup_ListNoDup _) (NoDup_elements vars)) as Hnd.
  assert (forall r rest,
            (r < size vars)%nat ->
            Data.random_splittable_variable d (r :: rest)
            = Returns (nth r (elements vars) name) rest) as Hunfold.
  { intros r rest Hr.
    unfold Data.random_splittable_variable, Random.bind, Random.lift.
    rewrite Hv. rewrite Hsize in Hr.
    destruct (elements vars) as [|x0 l] eqn:E; [simpl in Hr; lia|].
    cbn [length Nat.eqb choice]. unfold pick.
    rewrite Nat.mod_small by exact Hr.
    rewrite (nth_indep (x0 :: l) x0 name Hr).
    assert (nth r (x0 :: l) name ∈ vars) as Hin.
    { apply elem_of_elements. rewrite E. apply list_elem_of_In, nth_In, Hr. }
    rewrite (str_getitem0_one_character _ (Hlen _ Hin)). reflexivity. }
  apply elem_of_elements, list_elem_of_In in Hname.
  destruct (In_nth _ _ name Hname) as (r & Hr & Hnth).
  rewrite <- Hsize in Hr.
  exists r. split; [exact Hr|]. split.
  - intros rest. rewrite (Hunfold r rest Hr), Hnth. reflexivity.
  - intros r' rest Hr' Hret. rewrite (Hunfold r' rest Hr') in Hret.
    injection Hret as Hret.
    apply (proj1 (NoDup_nth (elements vars) name) Hnd); try lia.
    congruence.
Qed.

Lemma random_splittable_variable_uniform_witness :
  exists r,
    (r < size ({[ "a"; "b" ]} : gset string))%nat
    /\ (forall rest,
          Data.random_splittable_variable Fixtures.store_ab (r :: rest)
          = Returns "b" rest)
    /\ (forall r' rest,
          (r' < size ({[ "a"; "b" ]} : gset string))%nat ->
          Data.random_splittable_variable Fixtures.store_ab (r' :: rest)
          = Returns "b" rest ->
          r' = r).
Proof.
  apply (random_splittable_variable_uniform
           Fixtures.store_ab {[ "a"; "b" ]} "b").
  - reflexivity.
  - intros n [->%elem_of_singleton | ->%elem_of_singleton]%elem_of_union;
      reflexivity.
  - set_solver.
Defined.

End DrawByDraw.
